(** * Premier car dealership landing page: inventory filter, source
      resolution, field validators and lead throttle

    A shallow embedding of the JavaScript of

    - [src/utils/validation.js]   (field validators),
    - [src/utils/leadThrottle.js] (lead-submission cooldown),
    - [src/services/api.js]       (JSON requests and candidate resolution),
    - [src/App.js]                (inventory filter, lead-form submit handler)

    together with the properties the specification states about them.

    Modelling conventions.

    - A JavaScript string is a [string]; a character is a code unit below
      256 read as the code point U+0000..U+00FF.  On this range
      [String.prototype.trim], [toLowerCase] and the regular-expression
      classes [\s] and [\d] are modelled exactly.  Literals of the source
      holding characters beyond U+00FF appear with their UTF-8 bytes; the
      modelled code only carries those strings around.
    - A JavaScript number is a [num]: NaN, the two infinities, or a finite
      number.  Finite numbers are integers (epoch milliseconds, durations,
      whole prices, model years, HTTP statuses); the arithmetic is exact, as
      IEEE doubles are on integers of magnitude below 2^53.
    - A JavaScript value is a [value], the values JSON can denote plus
      [undefined].
    - A call that can throw returns a [completion]; code that talks to the
      network runs in the monad [Net], whose state is the log of the requests
      made so far.
    - The parts of the runtime the source only calls ([Number] on strings,
      [JSON.parse], [JSON.stringify], the configured base URL, the remote
      server) are Section variables. *)

From Stdlib Require Import ZArith List Bool Ascii String Lia.
From Stdlib Require Import Sorting.Permutation.
From Stdlib Require Import Numbers.DecimalString Numbers.DecimalPos.
Import ListNotations.

Local Open Scope string_scope.
Local Open Scope Z_scope.

Set Warnings "-register-all".


(* ================================================================== *)
(** * Strings *)
(* ================================================================== *)

Module Str.

(** Code point of a character. *)
Definition code (c : ascii) : N := N_of_ascii c.

(** ECMAScript WhiteSpace and LineTerminator code points below 256: TAB,
    LF, VT, FF, CR, SPACE and NO-BREAK SPACE.  This is the set stripped by
    [trim] and matched by the class [\s]. *)
Definition isWhiteSpace (c : ascii) : bool :=
  match code c with
  | 9 | 10 | 11 | 12 | 13 | 32 | 160 => true
  | _ => false
  end%N.

(** The class [\d]. *)
Definition isDigit (c : ascii) : bool :=
  ((48 <=? code c) && (code c <=? 57))%N.

(** Upper-case letters below 256: A-Z, and U+00C0..U+00DE without the
    multiplication sign U+00D7. *)
Definition isUpper (c : ascii) : bool :=
  (((65 <=? code c) && (code c <=? 90))
   || ((192 <=? code c) && (code c <=? 214))
   || ((216 <=? code c) && (code c <=? 222)))%N.

Definition toLowerChar (c : ascii) : ascii :=
  if isUpper c then ascii_of_N (code c + 32) else c.

(** [s.toLowerCase()] *)
Fixpoint toLowerCase (s : string) : string :=
  match s with
  | EmptyString => EmptyString
  | String c s' => String (toLowerChar c) (toLowerCase s')
  end.

(** [s.trimStart()] *)
Fixpoint trimStart (s : string) : string :=
  match s with
  | EmptyString => EmptyString
  | String c s' => if isWhiteSpace c then trimStart s' else s
  end.

(** [s.trimEnd()] *)
Fixpoint trimEnd (s : string) : string :=
  match s with
  | EmptyString => EmptyString
  | String c s' =>
      match trimEnd s' with
      | EmptyString => if isWhiteSpace c then EmptyString else String c EmptyString
      | r => String c r
      end
  end.

(** [s.trim()] *)
Definition trim (s : string) : string := trimEnd (trimStart s).

(** [s.startsWith(p)] *)
Fixpoint startsWith (s p : string) : bool :=
  match p, s with
  | EmptyString, _ => true
  | String _ _, EmptyString => false
  | String a p', String b s' => Ascii.eqb a b && startsWith s' p'
  end.

(** [s.includes(q)]: [q] occurs in [s] at some position. *)
Fixpoint includes (s q : string) : bool :=
  startsWith s q
  || match s with
     | EmptyString => false
     | String _ s' => includes s' q
     end.

(** [!s] for a string: only the empty string is falsy. *)
Definition isEmpty (s : string) : bool :=
  match s with EmptyString => true | _ => false end.

(** [s.replace(/^\/+/, "")] *)
Fixpoint stripLeadingSlashes (s : string) : string :=
  match s with
  | String "/" s' => stripLeadingSlashes s'
  | _ => s
  end.

(** [s.replace(/\/+$/, "")] *)
Fixpoint stripTrailingSlashes (s : string) : string :=
  match s with
  | EmptyString => EmptyString
  | String c s' =>
      match stripTrailingSlashes s' with
      | EmptyString => if Ascii.eqb c "/" then EmptyString else String c EmptyString
      | r => String c r
      end
  end.

(** [parts.join(sep)] *)
Fixpoint join (sep : string) (parts : list string) : string :=
  match parts with
  | [] => ""
  | [p] => p
  | p :: rest => p ++ sep ++ join sep rest
  end.

(** A string that does not begin with white space. *)
Definition headed (s : string) : Prop :=
  match s with
  | EmptyString => True
  | String c _ => isWhiteSpace c = false
  end.

(** Every character of [s] satisfies [p]. *)
Fixpoint every (p : ascii -> bool) (s : string) : bool :=
  match s with
  | EmptyString => true
  | String c s' => p c && every p s'
  end.

End Str.

(* ================================================================== *)
(** * Regular expressions of the shape used by the validators *)
(* ================================================================== *)

(** Both patterns of [validation.js] are anchored sequences of character
    classes, each with a lower bound on its repetitions that is either exact
    or open-ended: [c] is [c{1}], [c+] is [c{1,}], [c{n,}] is itself. *)
Module Regex.

Record piece : Type := Piece {
  cls : ascii -> bool;      (* the character class *)
  least : nat;              (* repetitions still required *)
  more : bool               (* whether further repetitions are allowed *)
}.

Definition pattern := list piece.

Definition one (p : ascii -> bool) : piece := Piece p 1 false.
Definition atLeast (n : nat) (p : ascii -> bool) : piece := Piece p n true.
Definition lit (a : ascii) : piece := one (Ascii.eqb a).

(** The states reachable from the pattern [ps] by reading [c]. *)
Fixpoint step (ps : pattern) (c : ascii) : list pattern :=
  match ps with
  | [] => []
  | p :: rest =>
      (if cls p c
       then match least p with
            | S n => [Piece (cls p) n (more p) :: rest]
            | O => if more p then [p :: rest] else []
            end
       else [])
      ++ match least p with
         | O => step rest c
         | S _ => []
         end
  end.

(** The pattern accepts the empty remainder. *)
Definition nullable (ps : pattern) : bool :=
  forallb (fun p => Nat.eqb (least p) 0) ps.

(** [/^ps$/.test(s)], by backtracking over the states. *)
Fixpoint test (ps : pattern) (s : string) {struct s} : bool :=
  match s with
  | EmptyString => nullable ps
  | String c s' => existsb (fun ps' => test ps' s') (step ps c)
  end.

(** The flag [i]: the pattern is given in lower case and the input is
    folded to lower case before matching. *)
Definition test_i (ps : pattern) (s : string) : bool :=
  test ps (Str.toLowerCase s).

End Regex.

(* ================================================================== *)
(** * Numbers *)
(* ================================================================== *)

(** A JavaScript number is an IEEE 754 double.  [Fin z] is the finite
    number whose value is the integer [z]: prices, years, lengths and
    millisecond time stamps.  A double holds every integer from [-(2^53 - 1)]
    to [2^53 - 1] without rounding ([Num.isSafeInteger]), and a sum or
    difference of such integers that stays in that range is computed without
    rounding too.  Outside it a double rounds, which [Num.add] and [Num.sub]
    do not: what is stated about the value of a sum or a difference is
    stated for exact operations ([Num.exactSub]).  Rounding is monotone: it
    never reverses the order of two results. *)
Inductive num : Type :=
| NaN
| PInf                      (* Infinity *)
| NInf                      (* -Infinity *)
| Fin (z : Z).

Module Num.

(** [Number.MAX_SAFE_INTEGER] *)
Definition MAX_SAFE_INTEGER : Z := 2 ^ 53 - 1.

(** [Number.isSafeInteger(z)] for an integer [z]. *)
Definition isSafeInteger (z : Z) : bool :=
  (- MAX_SAFE_INTEGER <=? z) && (z <=? MAX_SAFE_INTEGER).

(** [Number.isFinite(x)] for a number [x]. *)
Definition isFinite (x : num) : bool :=
  match x with Fin _ => true | _ => false end.

(** [-x] *)
Definition neg (x : num) : num :=
  match x with
  | NaN => NaN
  | PInf => NInf
  | NInf => PInf
  | Fin z => Fin (- z)
  end.

(** [x + y] *)
Definition add (x y : num) : num :=
  match x, y with
  | NaN, _ | _, NaN => NaN
  | PInf, NInf | NInf, PInf => NaN
  | PInf, _ | _, PInf => PInf
  | NInf, _ | _, NInf => NInf
  | Fin a, Fin b => Fin (a + b)
  end.

(** [x - y] *)
Definition sub (x y : num) : num := add x (neg y).

(** The subtraction [a - b] of doubles is exact: the operands and the
    difference are safe integers. *)
Definition exactSub (a b : Z) : bool :=
  isSafeInteger a && isSafeInteger b && isSafeInteger (a - b).

(** [x < y]; false as soon as one side is NaN. *)
Definition lt (x y : num) : bool :=
  match x, y with
  | NaN, _ | _, NaN => false
  | _, NInf => false
  | PInf, _ => false
  | NInf, _ => true
  | _, PInf => true
  | Fin a, Fin b => a <? b
  end.

(** [x <= y]; false as soon as one side is NaN. *)
Definition le (x y : num) : bool :=
  match x, y with
  | NaN, _ | _, NaN => false
  | NInf, _ => true
  | _, PInf => true
  | _, NInf => false
  | PInf, _ => false
  | Fin a, Fin b => a <=? b
  end.

(** [x > y] *)
Definition gt (x y : num) : bool := lt y x.

(** Truthiness of a number: [0] and [NaN] are falsy. *)
Definition truthy (x : num) : bool :=
  match x with
  | NaN => false
  | Fin 0 => false
  | _ => true
  end.

(** [String(x)].  Decimal for a finite number, which is what
    [Number::toString] gives for integers of magnitude below 10^21. *)
Definition toString (x : num) : string :=
  match x with
  | NaN => "NaN"
  | PInf => "Infinity"
  | NInf => "-Infinity"
  | Fin z => NilEmpty.string_of_int (Z.to_int z)
  end.

End Num.

(* ================================================================== *)
(** * Values *)
(* ================================================================== *)

Inductive value : Type :=
| VUndefined
| VNull
| VBool (b : bool)
| VNum (n : num)
| VStr (s : string)
| VArr (elems : list value)
| VObj (props : list (string * value)).

Module JS.

(** Own property lookup in a property list. *)
Fixpoint lookup (props : list (string * value)) (k : string) : value :=
  match props with
  | [] => VUndefined
  | (k', v) :: rest => if String.eqb k' k then v else lookup rest k
  end.

(** [v?.k] for one of the property names the source reads ([make],
    [items], [message], ...): none of them is a property of a primitive or
    of an array, so only objects answer. *)
Definition opt_get (v : value) (k : string) : value :=
  match v with
  | VObj props => lookup props k
  | _ => VUndefined
  end.

(** [typeof v === "string"] *)
Definition isString (v : value) : bool :=
  match v with VStr _ => true | _ => false end.

(** [Array.isArray(v)] *)
Definition isArray (v : value) : bool :=
  match v with VArr _ => true | _ => false end.

(** ToBoolean. *)
Definition truthy (v : value) : bool :=
  match v with
  | VUndefined | VNull => false
  | VBool b => b
  | VNum n => Num.truthy n
  | VStr s => negb (Str.isEmpty s)
  | VArr _ | VObj _ => true
  end.

(** [a || b] *)
Definition or (a b : value) : value := if truthy a then a else b.

(** [v === s] for a string [s]: no coercion. *)
Definition strictEqStr (v : value) (s : string) : bool :=
  match v with
  | VStr s' => String.eqb s' s
  | _ => false
  end.

(** ToString, as used by template literals, by [Error(message)] and by
    [toString()]: arrays join their elements with a comma, writing the empty
    string for [null] and [undefined]; plain objects give
    ["[object Object]"]. *)
Fixpoint toString (v : value) : string :=
  match v with
  | VUndefined => "undefined"
  | VNull => "null"
  | VBool true => "true"
  | VBool false => "false"
  | VNum n => Num.toString n
  | VStr s => s
  | VArr elems =>
      Str.join ","
        ((fix each (l : list value) : list string :=
            match l with
            | [] => []
            | VUndefined :: l' => "" :: each l'
            | VNull :: l' => "" :: each l'
            | e :: l' => toString e :: each l'
            end) elems)
  | VObj _ => "[object Object]"
  end.

Section Coercions.

(** [Number(s)] for a string [s] (StringToNumber). *)
Variable StringToNumber : string -> num.

(** ToNumber.  Arrays and objects go through their string. *)
Definition toNumber (v : value) : num :=
  match v with
  | VUndefined => NaN
  | VNull => Fin 0
  | VBool true => Fin 1
  | VBool false => Fin 0
  | VNum n => n
  | VStr s => StringToNumber s
  | VArr _ | VObj _ => StringToNumber (toString v)
  end.

End Coercions.

End JS.

(* ================================================================== *)
(** * Completions *)
(* ================================================================== *)

(** What an [Error] carries as far as the source looks at it.  [status] is
    set by [requestJson] on a non-2xx response. *)
Record error : Type := Error {
  message : string;
  status : option Z;
  body : value
}.

(** [new Error(msg)] *)
Definition newError (msg : string) : error := Error msg None VUndefined.

(** [new TypeError(msg)], raised by the runtime. *)
Definition TypeError (msg : string) : error := Error msg None VUndefined.

Inductive completion (A : Type) : Type :=
| Normal (a : A)
| Throw (e : error).

Arguments Normal {A} a.
Arguments Throw {A} e.

Definition bindC {A B} (m : completion A) (k : A -> completion B) : completion B :=
  match m with
  | Normal a => k a
  | Throw e => Throw e
  end.

(** [try { m } catch (e) { h(e) }] *)
Definition tryCatch {A} (m : completion A) (h : error -> completion A) : completion A :=
  match m with
  | Normal a => Normal a
  | Throw e => h e
  end.

Definition returns {A} (m : completion A) : Prop := exists a, m = Normal a.

Declare Scope completion_scope.
Delimit Scope completion_scope with completion.
Notation "'let!' x ':=' m 'in' k" := (bindC m (fun x => k))
  (at level 10, x name, m at level 100, k at level 200) : completion_scope.
Local Open Scope completion_scope.

(* ================================================================== *)
(** * [src/utils/validation.js] *)
(* ================================================================== *)

Module Validation.

Import Regex.

(** [v.trim()] as a method call on an arbitrary value: only strings have
    the method, calling it on anything else is a [TypeError]. *)
Definition callTrim (v : value) : completion string :=
  match v with
  | VStr s => Normal (Str.trim s)
  | VUndefined | VNull =>
      Throw (TypeError "Cannot read properties of undefined (reading 'trim')")
  | _ => Throw (TypeError "trim is not a function")
  end.

(** The class [[^\s@]]. *)
Definition notSpaceNorAt (c : ascii) : bool :=
  negb (Str.isWhiteSpace c || Ascii.eqb c "@").

(** The class [[+()\-.\s\d]]. *)
Definition phoneChar (c : ascii) : bool :=
  Ascii.eqb c "+" || Ascii.eqb c "(" || Ascii.eqb c ")" || Ascii.eqb c "-"
  || Ascii.eqb c "." || Str.isWhiteSpace c || Str.isDigit c.

(** [/^[^\s@]+@[^\s@]+\.[^\s@]{2,}$/i] *)
Definition EMAIL_RE : pattern :=
  [atLeast 1 notSpaceNorAt; lit "@"; atLeast 1 notSpaceNorAt; lit ".";
   atLeast 2 notSpaceNorAt].

(** [/^[+()\-.\s\d]{7,}$/] *)
Definition PHONE_RE : pattern := [atLeast 7 phoneChar].

Definition REQUIRED_MSG : string := "This field is required.".
Definition EMAIL_MSG : string := "Enter a valid email address.".
Definition PHONE_MSG : string := "Enter a valid phone number.".

Definition validateRequired (val : value) : completion string :=
  if negb (JS.isString val) then Normal REQUIRED_MSG
  else
    let! t := callTrim val in
    if Str.isEmpty t then Normal REQUIRED_MSG
    else Normal "".

Definition validateEmail (val : value) : completion string :=
  let! req := validateRequired val in
  if negb (Str.isEmpty req) then Normal req
  else
    let! t := callTrim val in
    if negb (test_i EMAIL_RE t) then Normal EMAIL_MSG
    else Normal "".

Definition validatePhoneOptional (val : value) : completion string :=
  let! v := callTrim (JS.or val (VStr "")) in
  if Str.isEmpty v then Normal ""
  else if negb (test PHONE_RE v) then Normal PHONE_MSG
  else Normal "".

(** [fieldName = "This field"]: the default applies to [undefined]. *)
Definition fieldNameOrDefault (fieldName : value) : value :=
  match fieldName with
  | VUndefined => VStr "This field"
  | _ => fieldName
  end.

Definition validateMinLen (val : value) (min : num) (fieldName : value)
  : completion string :=
  let! v := callTrim (JS.or val (VStr "")) in
  if Num.lt (Fin (Z.of_nat (String.length v))) min
  then Normal (JS.toString (fieldNameOrDefault fieldName)
               ++ " must be at least " ++ Num.toString min ++ " characters.")
  else Normal "".

End Validation.

(* ================================================================== *)
(** * [src/utils/leadThrottle.js] *)
(* ================================================================== *)

(** [localStorage]: the entries, and whether access is denied (a browser
    that blocks storage throws on every access). *)
Record Storage : Type := {
  denied : bool;
  entries : list (string * string)
}.

Module LocalStorage.

Definition SecurityError : error := newError "The operation is insecure.".

Fixpoint find (l : list (string * string)) (k : string) : option string :=
  match l with
  | [] => None
  | (k', v) :: rest => if String.eqb k' k then Some v else find rest k
  end.

Fixpoint put (l : list (string * string)) (k v : string) : list (string * string) :=
  match l with
  | [] => [(k, v)]
  | (k', v') :: rest =>
      if String.eqb k' k then (k, v) :: rest else (k', v') :: put rest k v
  end.

(** [localStorage.getItem(k)]; [None] is [null]. *)
Definition getItem (st : Storage) (k : string) : completion (option string) :=
  if denied st then Throw SecurityError else Normal (find (entries st) k).

(** [localStorage.setItem(k, v)] *)
Definition setItem (st : Storage) (k v : string) : completion Storage :=
  if denied st then Throw SecurityError
  else Normal {| denied := false; entries := put (entries st) k v |}.

End LocalStorage.

Module LeadThrottle.

Section Throttle.

Variable StringToNumber : string -> num.

Definition STORAGE_KEY : string := "pcd_lastLeadSubmissionAt".
Definition DEFAULT_WINDOW_MS : Z := 24 * 60 * 60 * 1000.

(** [windowMs = DEFAULT_WINDOW_MS]: the default applies to [undefined]. *)
Definition windowOrDefault (windowMs : value) : value :=
  match windowMs with
  | VUndefined => VNum (Fin DEFAULT_WINDOW_MS)
  | _ => windowMs
  end.

(** The body of the [try] block; [now] is [Date.now()]. *)
Definition cooldownBody (st : Storage) (now : Z) (windowMs : value)
  : completion num :=
  let! raw := LocalStorage.getItem st STORAGE_KEY in
  match raw with
  | None => Normal (Fin 0)
  | Some raw =>
      if Str.isEmpty raw then Normal (Fin 0)
      else
        let ts := StringToNumber raw in
        if negb (Num.isFinite ts) then Normal (Fin 0)
        else
          let elapsed := Num.sub (Fin now) ts in
          let remaining :=
            Num.sub (JS.toNumber StringToNumber (windowOrDefault windowMs)) elapsed in
          Normal (if Num.gt remaining (Fin 0) then remaining else Fin 0)
  end.

Definition getLeadSubmissionCooldownRemainingMs
    (st : Storage) (now : Z) (windowMs : value) : completion num :=
  tryCatch (cooldownBody st now windowMs) (fun _ => Normal (Fin 0)).

(** [markLeadSubmitted()]: the storage afterwards. *)
Definition markLeadSubmitted (st : Storage) (now : Z) : Storage :=
  match LocalStorage.setItem st STORAGE_KEY (Num.toString (Fin now)) with
  | Normal st' => st'
  | Throw _ => st          (* Ignore storage errors. *)
  end.

End Throttle.

End LeadThrottle.

(* ================================================================== *)
(** * [src/services/api.js] *)
(* ================================================================== *)

(** What [fetch] is called with. *)
Record request : Type := {
  url : string;
  method : string;
  headers : list (string * string);
  payload : option string          (* [body]; absent on a GET *)
}.

(** What [fetch] resolves to. *)
Record response : Type := {
  res_status : Z;
  res_statusText : string;
  res_text : string                (* what [res.text()] resolves to *)
}.

(** [res.ok]: the status is in the range 200-299. *)
Definition res_ok (res : response) : bool :=
  (200 <=? res_status res) && (res_status res <=? 299).

(** A computation that may call [fetch]: it is given the log of the
    requests made so far and returns the extended log with its completion.
    Awaiting is sequencing: the source awaits every request before it goes
    on. *)
Definition Net (A : Type) : Type := list request -> list request * completion A.

Module NetM.

Definition ret {A} (a : A) : Net A := fun log => (log, Normal a).

Definition throw {A} (e : error) : Net A := fun log => (log, Throw e).

Definition bind {A B} (m : Net A) (k : A -> Net B) : Net B :=
  fun log =>
    match m log with
    | (log', Normal a) => k a log'
    | (log', Throw e) => (log', Throw e)
    end.

(** [try { m } catch (e) { ... }], handing the completion to the
    continuation. *)
Definition attempt {A} (m : Net A) : Net (completion A) :=
  fun log => let (log', r) := m log in (log', Normal r).

End NetM.

Declare Scope net_scope.
Delimit Scope net_scope with net.
Notation "x <- m ;; k" := (NetM.bind m (fun x => k))
  (at level 61, m at next level, right associativity) : net_scope.

(** [{ source, items, warning }] *)
Record Snapshot : Type := {
  source : string;
  items : list value;
  warning : option string
}.

(** [{ ok, source, data }] *)
Record Receipt : Type := {
  ok : bool;
  receipt_source : string;
  data : option value
}.

Module Api.

Local Open Scope net_scope.

(** One car of the built-in inventory. *)
Definition car (id title : string) (price year : Z) (make model body : string)
    (mileage : Z) (fuel transmission drivetrain color : string)
    (highlights : list string) (description : string) : value :=
  VObj [("id", VStr id); ("title", VStr title); ("price", VNum (Fin price));
        ("year", VNum (Fin year)); ("make", VStr make); ("model", VStr model);
        ("body", VStr body); ("mileage", VNum (Fin mileage));
        ("fuel", VStr fuel); ("transmission", VStr transmission);
        ("drivetrain", VStr drivetrain); ("color", VStr color);
        ("imageUrl", VNull); ("highlights", VArr (map VStr highlights));
        ("description", VStr description)].

Definition getMockInventory : list value :=
  [ car "car-001" "2022 Honda Accord EX" 26995 2022 "Honda" "Accord" "Sedan"
        22110 "Gas" "Automatic" "FWD" "Platinum White"
        ["Clean CARFAX"; "Adaptive Cruise"; "Apple CarPlay"]
        "A comfortable, efficient midsize sedan with modern safety features and a refined interior.";
    car "car-002" "2021 Toyota RAV4 XLE" 28950 2021 "Toyota" "RAV4" "SUV"
        28405 "Gas" "Automatic" "AWD" "Magnetic Gray"
        ["AWD"; "Heated Seats"; "Lane Assist"]
        "Versatile compact SUV with excellent reliability and everyday practicality.";
    car "car-003" "2020 Tesla Model 3 Standard Range Plus" 30990 2020 "Tesla"
        "Model 3" "Sedan" 19820 "Electric" "Single-speed" "RWD" "Red Multi-Coat"
        ["Autopilot"; "Fast Charging"; "Premium Audio"]
        "All-electric sedan with instant torque, a minimalist cabin, and strong safety ratings.";
    car "car-004" "2023 Ford F-150 XLT" 41995 2023 "Ford" "F-150" "Truck"
        12050 "Gas" "Automatic" "4WD" "Iconic Silver"
        ["4WD"; "Tow Package"; "Remote Start"]
        "America’s favorite pickup with power, tech, and comfort for work or weekend adventures.";
    car "car-005" "2022 BMW X3 xDrive30i" 39950 2022 "BMW" "X3" "SUV"
        16490 "Gas" "Automatic" "AWD" "Alpine White"
        ["Luxury Package"; "Panoramic Roof"; "AWD"]
        "Premium compact SUV with sporty handling and a high-quality, tech-forward cabin.";
    car "car-006" "2021 Mazda CX-5 Touring" 24995 2021 "Mazda" "CX-5" "SUV"
        26340 "Gas" "Automatic" "AWD" "Deep Crystal Blue"
        ["AWD"; "Blind Spot Monitor"; "Great Condition"]
        "A stylish SUV known for agile driving dynamics and an upscale interior feel." ].

Definition INVENTORY_CANDIDATES : list string :=
  ["/api/inventory"; "/inventory"; "/api/cars"; "/cars"].

Definition LEAD_CANDIDATES : list string :=
  ["/api/leads"; "/leads"; "/api/contact"; "/contact"].

Definition UNAVAILABLE_MSG : string :=
  "Backend inventory endpoint unavailable; using mock inventory.".

Definition LEAD_FAILED_MSG : string := "Lead submission failed.".

Section Client.

(** [process.env.REACT_APP_API_BASE || process.env.REACT_APP_BACKEND_URL
    || ""]: always a string. *)
Variable API_BASE : string.

(** [JSON.parse]; [None] is a [SyntaxError]. *)
Variable JSON_parse : string -> option value.

(** [JSON.stringify] *)
Variable JSON_stringify : value -> string.

(** The other end of [fetch]: given the requests seen so far and a new
    one, a response, or the error [fetch] rejects with. *)
Variable server : list request -> request -> completion response.

(** [await fetch(url, init)] *)
Definition fetch (req : request) : Net response :=
  fun log => ((log ++ [req])%list, server log req).

Definition hasApiBase : bool :=
  (0 <? Z.of_nat (String.length (Str.trim API_BASE))).

Definition joinUrl (base path : string) : string :=
  let trimmedBase := Str.stripTrailingSlashes base in
  let trimmedPath := Str.stripLeadingSlashes path in
  if Str.isEmpty trimmedBase then "/" ++ trimmedPath
  else trimmedBase ++ "/" ++ trimmedPath.

Definition safeJson (res : response) : value :=
  let text := res_text res in
  if Str.isEmpty text then VNull
  else match JSON_parse text with
       | Some v => v
       | None => VObj [("raw", VStr text)]
       end.

(** The request [requestJson(path, { method, body })] sends. *)
Definition requestFor (path method : string) (body : option string) : request :=
  {| url := if hasApiBase then joinUrl API_BASE path else path;
     method := method;
     headers := [("Content-Type", "application/json")];
     payload := body |}.

(** The error thrown on a response that is not ok. *)
Definition httpError (res : response) : error :=
  let body := safeJson res in
  let msg :=
    JS.or (JS.opt_get body "message")
      (JS.or (JS.opt_get body "error")
         (VStr ("Request failed (" ++ Num.toString (Fin (res_status res))
                ++ " " ++ res_statusText res ++ ")"))) in
  {| message := JS.toString msg;
     status := Some (res_status res);
     body := body |}.

Definition requestJson (path method : string) (body : option string) : Net value :=
  res <- fetch (requestFor path method body) ;;
  if negb (res_ok res) then NetM.throw (httpError res)
  else NetM.ret (safeJson res).

(** [Array.isArray(data) ? data : data?.items] *)
Definition itemsOf (data : value) : value :=
  if JS.isArray data then data else JS.opt_get data "items".

(** [lastErr?.message || UNAVAILABLE_MSG] *)
Definition warningOf (lastErr : option error) : string :=
  match lastErr with
  | Some e => if Str.isEmpty (message e) then UNAVAILABLE_MSG else message e
  | None => UNAVAILABLE_MSG
  end.

(** The [for] loop of [fetchInventory] over the candidates still to
    try, followed by the soft fallback. *)
Fixpoint fetchInventoryFrom (candidates : list string) (lastErr : option error)
  : Net Snapshot :=
  match candidates with
  | [] =>
      NetM.ret {| source := "mock"; items := getMockInventory;
                  warning := Some (warningOf lastErr) |}
  | path :: rest =>
      r <- NetM.attempt (requestJson path "GET" None) ;;
      match r with
      | Normal data =>
          match itemsOf data with
          | VArr items =>
              NetM.ret {| source := "api"; items := items; warning := None |}
          | _ => fetchInventoryFrom rest lastErr
          end
      | Throw e => fetchInventoryFrom rest (Some e)
      end
  end.

Definition fetchInventory : Net Snapshot :=
  if negb hasApiBase
  then NetM.ret {| source := "mock"; items := getMockInventory; warning := None |}
  else fetchInventoryFrom INVENTORY_CANDIDATES None.

(** The [for] loop of [submitLead], followed by the final [throw]. *)
Fixpoint submitLeadFrom (candidates : list string) (lead : value)
    (lastErr : option error) : Net Receipt :=
  match candidates with
  | [] =>
      NetM.throw match lastErr with
                 | Some e => e
                 | None => newError LEAD_FAILED_MSG
                 end
  | path :: rest =>
      r <- NetM.attempt (requestJson path "POST" (Some (JSON_stringify lead))) ;;
      match r with
      | Normal data =>
          NetM.ret {| ok := true; receipt_source := "api"; data := Some data |}
      | Throw e => submitLeadFrom rest lead (Some e)
      end
  end.

(** Without a backend the source waits 650 ms and reports success; the
    delay is not part of the model. *)
Definition submitLead (lead : value) : Net Receipt :=
  if negb hasApiBase
  then NetM.ret {| ok := true; receipt_source := "mock"; data := None |}
  else submitLeadFrom LEAD_CANDIDATES lead None.

(** ** Vocabulary for the properties of the resolution loops *)

(** The request [fetchInventory] sends for a candidate. *)
Definition getRequest (path : string) : request := requestFor path "GET" None.

(** The request [submitLead] sends for a candidate. *)
Definition postRequest (lead : value) (path : string) : request :=
  requestFor path "POST" (Some (JSON_stringify lead)).

(** The requests the loops send for a list of candidates, in order. *)
Definition getRequests (candidates : list string) : list request :=
  map getRequest candidates.

Definition postRequests (lead : value) (candidates : list string) : list request :=
  map (postRequest lead) candidates.

(** A body is structurally valid when it is a bare array, or an object
    whose [items] is an array; [bodyItems] gives the array. *)
Definition bodyItems (data : value) : option (list value) :=
  match data with
  | VArr items => Some items
  | VObj props =>
      match JS.lookup props "items" with
      | VArr items => Some items
      | _ => None
      end
  | _ => None
  end.

(** The error a request made after [log] fails with: the one [fetch]
    rejects with, or the one built from a response that is not 2xx.
    [None] when the response is 2xx. *)
Definition errorOf (log : list request) (req : request) : option error :=
  match server log req with
  | Throw e => Some e
  | Normal res => if res_ok res then None else Some (httpError res)
  end.

(** The items a read candidate tried after [log] succeeds with: its
    response is 2xx and its body structurally valid.  [None] when the
    candidate fails. *)
Definition readItems (log : list request) (path : string) : option (list value) :=
  match server log (getRequest path) with
  | Throw _ => None
  | Normal res => if res_ok res then bodyItems (safeJson res) else None
  end.

(** Every read candidate of a list fails at the moment it is tried, that
    is after the candidates listed before it. *)
Definition allFail (candidates : list string) (log : list request) : Prop :=
  forall pre p post,
    candidates = (pre ++ p :: post)%list ->
    readItems (log ++ getRequests pre)%list p = None.

(** Every write candidate of a list fails at the moment it is tried. *)
Definition allRaise (lead : value) (candidates : list string) (log : list request)
  : Prop :=
  forall pre p post,
    candidates = (pre ++ p :: post)%list ->
    errorOf (log ++ postRequests lead pre)%list (postRequest lead p) <> None.

(** No candidate listed after [pre ++ [p]] raises an error. *)
Definition quietAfter (mk : string -> request) (pre : list string) (p : string)
    (post : list string) (log : list request) : Prop :=
  forall post1 p' post2,
    post = (post1 ++ p' :: post2)%list ->
    errorOf (log ++ map mk (pre ++ p :: post1))%list (mk p') = None.

(** The value of [lastErr] after the loop has tried [candidates],
    starting after [log] with [lastErr]. *)
Fixpoint lastErrorFrom (mk : string -> request) (candidates : list string)
    (log : list request) (lastErr : option error) : option error :=
  match candidates with
  | [] => lastErr
  | path :: rest =>
      lastErrorFrom mk rest (log ++ [mk path])%list
        match errorOf log (mk path) with
        | Some e => Some e
        | None => lastErr
        end
  end.

End Client.

End Api.

(* ================================================================== *)
(** * [src/App.js] *)
(* ================================================================== *)

(** [filters]: the criteria the inventory is filtered by.  [maxPrice] is
    the sentinel ["Any"], a number, or the numeric string a select box
    holds. *)
Record Filters : Type := {
  query : string;
  make : string;
  bodyStyle : string;              (* [filters.body] *)
  maxPrice : value
}.

(** [leadSubmitState.status] *)
Inductive Status : Type := idle | blocked | submitting | success | failed.

(** [leadSubmitState]; [failed] is the status ["error"]. *)
Record SubmitState : Type := {
  submitStatus : Status;
  submitMessage : string
}.

(** [leadForm] *)
Record LeadForm : Type := {
  lf_name : string;
  lf_dealership : string;
  lf_title : string;
  lf_email : string;
  lf_phone : string;
  lf_message : string;
  lf_interest : string
}.

(** The part of the page the lead form works on: its React state, the
    browser storage, and the calls of [submitLead] made so far, newest
    last. *)
Record Page : Type := {
  leadSubmitState : SubmitState;
  leadErrors : list (string * string);
  leadForm : LeadForm;
  localStorage : Storage;
  submitLeadCalls : list value
}.

Module App.

Import Validation.

Definition normalizeStr (v : value) : string :=
  Str.toLowerCase (Str.trim (JS.toString (JS.or v (VStr "")))).

(** [n || 0] for a number [n]. *)
Definition orZero (n : num) : num := if Num.truthy n then n else Fin 0.

(** [`${car?.title || ""} ${car?.make || ""} ${car?.model || ""}
      ${car?.body || ""} ${car?.year || ""}`] *)
Definition haystackText (car : value) : string :=
  JS.toString (JS.or (JS.opt_get car "title") (VStr "")) ++ " "
  ++ JS.toString (JS.or (JS.opt_get car "make") (VStr "")) ++ " "
  ++ JS.toString (JS.or (JS.opt_get car "model") (VStr "")) ++ " "
  ++ JS.toString (JS.or (JS.opt_get car "body") (VStr "")) ++ " "
  ++ JS.toString (JS.or (JS.opt_get car "year") (VStr "")).

Definition BLOCKED_MSG : string :=
  "Thank you — your request has already been submitted recently. Please check your email, or contact us directly if you need help sooner.".

Definition SUCCESS_MSG : string :=
  "Thank you — your request has been submitted. We’ll reach out within 1 business day.".

Definition FAILURE_MSG : string :=
  "Submission failed. Please try again, or reach out via phone/email below.".

Section Component.

Variable StringToNumber : string -> num.

(** [new Date(now).toISOString()] *)
Variable toISOString : Z -> string.

(** The callback given to [filter]. *)
Definition matches (filters : Filters) (q : string) (max : num) (car : value)
  : bool :=
  let makeOk :=
    String.eqb (make filters) "All"
    || JS.strictEqStr (JS.opt_get car "make") (make filters) in
  let bodyOk :=
    String.eqb (bodyStyle filters) "All"
    || JS.strictEqStr (JS.opt_get car "body") (bodyStyle filters) in
  let priceNum := JS.toNumber StringToNumber (JS.opt_get car "price") in
  let priceOk :=
    if negb (Num.isFinite max) then true else Num.le (orZero priceNum) max in
  let haystack := normalizeStr (VStr (haystackText car)) in
  let qOk := Str.isEmpty q || Str.includes haystack q in
  makeOk && bodyOk && priceOk && qOk.

(** The memoised [filteredInventory] as a function of its two
    dependencies. *)
Definition filteredInventory (filters : Filters) (items : list value)
  : list value :=
  let q := normalizeStr (VStr (query filters)) in
  let max :=
    if JS.strictEqStr (maxPrice filters) "Any" then PInf
    else JS.toNumber StringToNumber (maxPrice filters) in
  filter (matches filters q max) items.

(** [if (err) errs[field] = err] *)
Definition note (field err : string) (errs : list (string * string))
  : list (string * string) :=
  if Str.isEmpty err then errs else (errs ++ [(field, err)])%list.

Definition validateLeadForm (values : LeadForm)
  : completion (list (string * string)) :=
  let errs := [] in
  let! nameErr := validateRequired (VStr (lf_name values)) in
  let errs := note "name" nameErr errs in
  let! dealerErr := validateRequired (VStr (lf_dealership values)) in
  let errs := note "dealership" dealerErr errs in
  let! titleErr := validateRequired (VStr (lf_title values)) in
  let errs := note "title" titleErr errs in
  let! emailErr := validateEmail (VStr (lf_email values)) in
  let errs := note "email" emailErr errs in
  let! phoneErr := validatePhoneOptional (VStr (lf_phone values)) in
  let errs := note "phone" phoneErr errs in
  let! msg := callTrim (JS.or (VStr (lf_message values)) (VStr "")) in
  if Str.isEmpty msg then Normal errs
  else
    let! msgErr := validateMinLen (VStr msg) (Fin 10) (VStr "Message") in
    Normal (note "message" msgErr errs).

(** [{ ...leadForm, source: "landing_page", createdAt }] *)
Definition leadPayload (form : LeadForm) (now : Z) : value :=
  VObj [("name", VStr (lf_name form));
        ("dealership", VStr (lf_dealership form));
        ("title", VStr (lf_title form));
        ("email", VStr (lf_email form));
        ("phone", VStr (lf_phone form));
        ("message", VStr (lf_message form));
        ("interest", VStr (lf_interest form));
        ("source", VStr "landing_page");
        ("createdAt", VStr (toISOString now))].

Definition setLeadSubmitState (s : SubmitState) (p : Page) : Page :=
  {| leadSubmitState := s; leadErrors := leadErrors p; leadForm := leadForm p;
     localStorage := localStorage p; submitLeadCalls := submitLeadCalls p |}.

Definition setLeadErrors (errs : list (string * string)) (p : Page) : Page :=
  {| leadSubmitState := leadSubmitState p; leadErrors := errs;
     leadForm := leadForm p; localStorage := localStorage p;
     submitLeadCalls := submitLeadCalls p |}.

(** The call [submitLead(payload)] leaving the component. *)
Definition callSubmitLead (lead : value) (p : Page) : Page :=
  {| leadSubmitState := leadSubmitState p; leadErrors := leadErrors p;
     leadForm := leadForm p; localStorage := localStorage p;
     submitLeadCalls := (submitLeadCalls p ++ [lead])%list |}.

(** [handleLeadSubmit] up to its [await]: what one submit event does to
    the page [p] at time [now].  The function is created anew by every
    render of the component and closes over that render's [leadSubmitState]
    and [leadForm]: [render] is the page as that render saw it.  The
    storage is read where it is, and the setters act on the page as it is
    when the event arrives. *)
Definition handleLeadSubmitOf (render : Page) (now : Z) (p : Page)
  : completion Page :=
  let! remaining :=
    LeadThrottle.getLeadSubmissionCooldownRemainingMs
      StringToNumber (localStorage p) now VUndefined in
  if Num.gt remaining (Fin 0)
  then Normal (setLeadSubmitState
                 {| submitStatus := blocked; submitMessage := BLOCKED_MSG |} p)
  else
    match submitStatus (leadSubmitState render) with
    | submitting => Normal p
    | _ =>
        let! errs := validateLeadForm (leadForm render) in
        let p := setLeadErrors errs p in
        match errs with
        | _ :: _ => Normal p
        | [] =>
            let p := setLeadSubmitState
                       {| submitStatus := submitting; submitMessage := "" |} p in
            Normal (callSubmitLead (leadPayload (leadForm render) now) p)
        end
    end.

(** The handler of the latest render: the component has rendered the page
    as it is when the event arrives. *)
Definition handleLeadSubmit (now : Z) (p : Page) : completion Page :=
  handleLeadSubmitOf p now p.

(** [handleLeadSubmit] after its [await]: what the page does at time
    [now] when the call of [submitLead] settles with [outcome]. *)
Definition leadSubmitSettled (outcome : completion Receipt) (now : Z) (p : Page)
  : Page :=
  match outcome with
  | Normal _ =>
      let p :=
        {| leadSubmitState := leadSubmitState p; leadErrors := leadErrors p;
           leadForm := leadForm p;
           localStorage := LeadThrottle.markLeadSubmitted (localStorage p) now;
           submitLeadCalls := submitLeadCalls p |} in
      setLeadSubmitState
        {| submitStatus := success; submitMessage := SUCCESS_MSG |} p
  | Throw err =>
      setLeadSubmitState
        {| submitStatus := failed;
           submitMessage :=
             if Str.isEmpty (message err) then FAILURE_MSG else message err |} p
  end.

End Component.

End App.

(* ================================================================== *)
(** * The specification's wording of the filter and of the phone pattern *)
(* ================================================================== *)

Module Spec.

Section Filter.

Variable StringToNumber : string -> num.

(** A field of the item, defaulting to the empty string. *)
Definition fieldText (car : value) (field : string) : string :=
  JS.toString (JS.or (JS.opt_get car field) (VStr "")).

(** The space-joined concatenation of title, make, model, body and
    year. *)
Definition joinedFields (car : value) : string :=
  Str.join " " (map (fieldText car) ["title"; "make"; "model"; "body"; "year"]).

(** The price used in the comparison: a non-numeric price counts as 0. *)
Definition priceOrZero (car : value) : num :=
  match JS.toNumber StringToNumber (JS.opt_get car "price") with
  | NaN => Fin 0
  | n => n
  end.

(** Make is "All", or the item's make equals it exactly. *)
Definition makeHolds (f : Filters) (car : value) : bool :=
  String.eqb (make f) "All" || JS.strictEqStr (JS.opt_get car "make") (make f).

(** Body is "All", or the item's body equals it exactly. *)
Definition bodyHolds (f : Filters) (car : value) : bool :=
  String.eqb (bodyStyle f) "All"
  || JS.strictEqStr (JS.opt_get car "body") (bodyStyle f).

(** maxPrice is "Any", or the item's price is at most maxPrice. *)
Definition priceHolds (f : Filters) (car : value) : bool :=
  JS.strictEqStr (maxPrice f) "Any"
  || Num.le (priceOrZero car) (JS.toNumber StringToNumber (maxPrice f)).

(** The same, with a limit that is not a finite number imposing no
    constraint. *)
Definition priceHoldsFinite (f : Filters) (car : value) : bool :=
  JS.strictEqStr (maxPrice f) "Any"
  || negb (Num.isFinite (JS.toNumber StringToNumber (maxPrice f)))
  || Num.le (priceOrZero car) (JS.toNumber StringToNumber (maxPrice f)).

(** The query is empty, or the trimmed, lower-cased query occurs in the
    lower-cased joined fields. *)
Definition queryHolds (f : Filters) (car : value) : bool :=
  Str.isEmpty (query f)
  || Str.includes (Str.toLowerCase (joinedFields car))
       (Str.toLowerCase (Str.trim (query f))).

(** The four conditions as the specification states them. *)
Definition included (f : Filters) (car : value) : bool :=
  makeHolds f car && bodyHolds f car && priceHolds f car && queryHolds f car.

(** The four conditions with the price condition as the code has it. *)
Definition includedFinite (f : Filters) (car : value) : bool :=
  makeHolds f car && bodyHolds f car && priceHoldsFinite f car && queryHolds f car.

(** The filter returns exactly the items for which the stated conditions
    hold, in their order. *)
Definition filterClaim (f : Filters) (cars : list value) : Prop :=
  App.filteredInventory StringToNumber f cars = filter (included f) cars.

End Filter.

(** The all-sentinel criteria. *)
Definition noFilters : Filters :=
  {| query := ""; make := "All"; bodyStyle := "All"; maxPrice := VStr "Any" |}.

(** A character the phone pattern allows: a digit, white space, a
    parenthesis, [+], [-] or [.]. *)
Definition phoneAllowed (c : ascii) : bool :=
  Str.isDigit c || Str.isWhiteSpace c
  || Ascii.eqb c "(" || Ascii.eqb c ")"
  || Ascii.eqb c "+" || Ascii.eqb c "-" || Ascii.eqb c ".".

(** At least 7 characters, all of them allowed. *)
Definition phoneShaped (s : string) : bool :=
  Nat.leb 7 (String.length s) && Str.every phoneAllowed s.

(** An empty or absent value: [undefined], [null] or the empty string. *)
Definition emptyOrAbsent (v : value) : Prop :=
  v = VUndefined \/ v = VNull \/ v = VStr "".

(** What the specification says of [validatePhoneOptional] at a value:
    an empty or absent value passes; a non-empty one passes exactly when
    its trimmed text has the shape of a phone number, and is answered with
    a non-empty message otherwise. *)
Definition phoneClaim (v : value) : Prop :=
  (emptyOrAbsent v -> Validation.validatePhoneOptional v = Normal "")
  /\ (forall s, v = VStr s -> s <> "" ->
      (Validation.validatePhoneOptional v = Normal ""
       <-> phoneShaped (Str.trim s) = true)
      /\ (phoneShaped (Str.trim s) = false ->
          exists msg, Validation.validatePhoneOptional v = Normal msg
                      /\ msg <> "")).

(** A number that is zero or more. *)
Definition nonNegative (n : num) : Prop := Num.le (Fin 0) n = true.

Section Cooldown.

Variable StringToNumber : string -> num.

(** What is said of a persisted timestamp [t] in the future: the cooldown
    is [windowMs + (t - now)], which exceeds the window. *)
Definition futureTimestampClaim (st : Storage) (now windowMs : Z) : Prop :=
  forall raw t,
    LocalStorage.getItem st LeadThrottle.STORAGE_KEY = Normal (Some raw) ->
    raw <> "" ->
    StringToNumber raw = Fin t ->
    now < t ->
    LeadThrottle.getLeadSubmissionCooldownRemainingMs
      StringToNumber st now (VNum (Fin windowMs))
    = Normal (Fin (windowMs + (t - now)))
    /\ windowMs < windowMs + (t - now).

End Cooldown.

Section LeadForm.

Variable StringToNumber : string -> num.
Variable toISOString : Z -> string.


End LeadForm.

End Spec.

(* ================================================================== *)
(** * Concrete runtimes for the examples *)
(* ================================================================== *)

Module Examples.

(** The value of a string of decimal digits; [None] on any other
    character. *)
Fixpoint digitsValue (s : string) (acc : Z) : option Z :=
  match s with
  | EmptyString => Some acc
  | String c s' =>
      if Str.isDigit c
      then digitsValue s' (10 * acc + (Z.of_N (Str.code c) - 48))
      else None
  end.

(** A [StringToNumber] for the examples.  It agrees with [Number] on the
    strings it is applied to there: white space around an optionally signed
    decimal integer, the empty string, and the infinities. *)
Definition decimalToNumber (s : string) : num :=
  match Str.trim s with
  | EmptyString => Fin 0
  | "Infinity" | "+Infinity" => PInf
  | "-Infinity" => NInf
  | String "-" (String c ds) =>
      match digitsValue (String c ds) 0 with
      | Some z => Fin (- z)
      | None => NaN
      end
  | String "+" (String c ds) =>
      match digitsValue (String c ds) 0 with
      | Some z => Fin z
      | None => NaN
      end
  | ds =>
      match digitsValue ds 0 with
      | Some z => Fin z
      | None => NaN
      end
  end.

(** A [JSON.parse] that knows one document. *)
Definition parseOnly (text : string) (v : value) (s : string) : option value :=
  if String.eqb s text then Some v else None.

(** The backend of the examples. *)
Definition dealer : string := "https://dealer.example/".

(** A [JSON.stringify] for the examples; the loops never look into the
    text of a request body. *)
Definition stringifyOpaque (v : value) : string := "<" ++ JS.toString v ++ ">".

(** A [toISOString] for the examples. *)
Definition isoOpaque (now : Z) : string := "T" ++ Num.toString (Fin now).

Definition notFound : response :=
  {| res_status := 404; res_statusText := "Not Found"; res_text := "" |}.

Definition okWith (text : string) : response :=
  {| res_status := 200; res_statusText := "OK"; res_text := text |}.

(** Every path answers 404. *)
Definition server404 (log : list request) (req : request) : completion response :=
  Normal notFound.

(** The path [/B] answers 200 with the text [ITEMS], any other path 404. *)
Definition serverAB (log : list request) (req : request) : completion response :=
  if String.eqb (url req) "https://dealer.example/B"
  then Normal (okWith "ITEMS")
  else Normal notFound.

Definition carX : value := VObj [("make", VStr "Honda"); ("price", VNum (Fin 26995))].
Definition carY : value := VObj [("make", VStr "Mazda"); ("price", VNum (Fin 24995))].

(** The document [{items: [x, y]}]. *)
Definition itemsXY : value := VObj [("items", VArr [carX; carY])].

(** A [JSON.parse] that knows the document [ITEMS]. *)
Definition parseItems : string -> option value := parseOnly "ITEMS" itemsXY.

Definition emptyStorage : Storage := {| denied := false; entries := [] |}.

Definition storageWith (raw : string) : Storage :=
  {| denied := false; entries := [(LeadThrottle.STORAGE_KEY, raw)] |}.

Definition deniedStorage : Storage := {| denied := true; entries := [] |}.

Definition filledForm : LeadForm :=
  {| lf_name := "Ada Lovelace"; lf_dealership := "Premier Cars";
     lf_title := "Owner"; lf_email := "ada@premier.example";
     lf_phone := "+1 (555) 010-2030"; lf_message := "";
     lf_interest := "Request a Demo" |}.

Definition freshPage : Page :=
  {| leadSubmitState := {| submitStatus := idle; submitMessage := "" |};
     leadErrors := []; leadForm := filledForm;
     localStorage := emptyStorage; submitLeadCalls := [] |}.


End Examples.

(* ================================================================== *)
(** * The rest of [src/services/api.js] *)
(* ================================================================== *)

Module ApiRest.

Import Api.

Local Open Scope net_scope.

(** [obj[k] = v] on a property list: an existing property keeps its
    place, a new one goes last. *)
Fixpoint setProp (props : list (string * value)) (k : string) (v : value)
  : list (string * value) :=
  match props with
  | [] => [(k, v)]
  | (k', v') :: rest =>
      if String.eqb k' k then (k, v) :: rest else (k', v') :: setProp rest k v
  end.

(** The characters of a string as one-character strings. *)
Fixpoint chars (s : string) : list value :=
  match s with
  | EmptyString => []
  | String c s' => VStr (String c EmptyString) :: chars s'
  end.

(** The elements of a list under their indices, counted from [i]. *)
Fixpoint indexed (i : nat) (l : list value) : list (string * value) :=
  match l with
  | [] => []
  | v :: l' => (Num.toString (Fin (Z.of_nat i)), v) :: indexed (S i) l'
  end.

(** The properties of a property list, each name once with the binding
    [JS.lookup] finds, skipping the names in [seen]. *)
Fixpoint uniqueFrom (seen : list string) (props : list (string * value))
  : list (string * value) :=
  match props with
  | [] => []
  | (k, v) :: rest =>
      if existsb (String.eqb k) seen then uniqueFrom seen rest
      else (k, v) :: uniqueFrom (k :: seen) rest
  end.

(** [k in obj] for a property list. *)
Definition hasProp (props : list (string * value)) (k : string) : bool :=
  existsb (fun kv => String.eqb (fst kv) k) props.

(** The own enumerable properties an object spread copies from a value:
    those of an object, the elements of an array and the characters of a
    string under their indices, nothing from another primitive. *)
Definition ownProps (v : value) : list (string * value) :=
  match v with
  | VObj props => uniqueFrom [] props
  | VArr elems => indexed 0 elems
  | VStr s => indexed 0 (chars s)
  | _ => []
  end.

(** [{ ...target, ...src }] *)
Definition spread (target : list (string * value)) (src : value)
  : list (string * value) :=
  fold_left (fun acc kv => setProp acc (fst kv) (snd kv)) (ownProps src) target.

Definition RESOURCE_CANDIDATES : list string :=
  ["/api/resources/request"; "/resources/request"; "/api/resources";
   "/resources"].

Definition RESOURCE_FAILED_MSG : string := "Resource request failed.".

Definition MOCK_RESOURCE_MSG : string :=
  "Thanks! We’ll email the resource shortly. (Mock mode: no email sent.)".

Section Client.

Variable API_BASE : string.
Variable JSON_parse : string -> option value.
Variable JSON_stringify : value -> string.
Variable server : list request -> request -> completion response.

(** [{ ok: true, source: "api", ...(data || {}) }] *)
Definition resourceReceipt (data : value) : value :=
  VObj (spread [("ok", VBool true); ("source", VStr "api")]
          (JS.or data (VObj []))).

(** The [for] loop of [submitGatedResourceRequest], followed by the
    final [throw]. *)
Fixpoint submitGatedResourceRequestFrom (candidates : list string)
    (resourceRequest : value) (lastErr : option error) : Net value :=
  match candidates with
  | [] =>
      NetM.throw match lastErr with
                 | Some e => e
                 | None => newError RESOURCE_FAILED_MSG
                 end
  | path :: rest =>
      r <- NetM.attempt
             (requestJson API_BASE JSON_parse server path "POST"
                (Some (JSON_stringify resourceRequest))) ;;
      match r with
      | Normal data => NetM.ret (resourceReceipt data)
      | Throw e => submitGatedResourceRequestFrom rest resourceRequest (Some e)
      end
  end.

(** Without a backend the source waits 650 ms and reports success; the
    delay is not part of the model. *)
Definition submitGatedResourceRequest (resourceRequest : value) : Net value :=
  if negb (hasApiBase API_BASE)
  then NetM.ret (VObj [("ok", VBool true); ("source", VStr "mock");
                       ("downloadUrl", VNull);
                       ("message", VStr MOCK_RESOURCE_MSG)])
  else submitGatedResourceRequestFrom RESOURCE_CANDIDATES resourceRequest None.

(** [{ apiBase: API_BASE || "" }] *)
Definition getApiConfig : value :=
  VObj [("apiBase", JS.or (VStr API_BASE) (VStr ""))].

End Client.

End ApiRest.

(* ================================================================== *)
(** * The rest of [src/App.js] *)
(* ================================================================== *)

(** [inventoryState] *)
Record InventoryState : Type := {
  loading : bool;
  inv_source : string;
  inv_warning : string;
  inv_error : string;
  inv_items : list value
}.

(** [resourceForm] *)
Record ResourceForm : Type := {
  rf_name : string;
  rf_email : string;
  rf_dealership : string
}.

(** [resourceSubmitState]; the message and the link are whatever the
    backend sent, or a string of the page. *)
Record ResourceSubmitState : Type := {
  resourceStatus : Status;
  resourceMessage : value;
  downloadUrl : value
}.

(** The part of the page the resource dialog works on, with the calls of
    [submitGatedResourceRequest] made so far, newest last. *)
Record ResourceDialog : Type := {
  resourceSubmitState : ResourceSubmitState;
  resourceErrors : list (string * string);
  resourceForm : ResourceForm;
  selectedResource : value;
  resourceCalls : list value
}.

Module AppRest.

Import Validation App.

(** ** Facet lists *)

(** [set.add(v)]: a set keeps its members in the order they were first
    added. *)
Definition setAdd (set : list string) (v : string) : list string :=
  if existsb (String.eqb v) set then set else (set ++ [v])%list.

(** The loop of [getUniqueValues]: the trimmed, non-empty string values
    of [key], each once, in the order of their first occurrence.  The page
    passes the keys ["make"] and ["body"], which [it?.[key]] finds on objects
    only. *)
Fixpoint collect (set : list string) (items : list value) (key : string)
  : list string :=
  match items with
  | [] => set
  | it :: rest =>
      let v := JS.opt_get it key in
      match v with
      | VStr s =>
          if negb (Str.isEmpty (Str.trim s))
          then collect (setAdd set (Str.trim s)) rest key
          else collect set rest key
      | _ => collect set rest key
      end
  end.

Section Sorting.

(** [a.localeCompare(b)]: negative, zero or positive.  The collation is
    the browser's; the page only relies on its sign. *)
Variable localeCompare : string -> string -> Z.

(** Where a stable sort puts [x] among elements that came before it:
    ahead of the first one it sorts strictly before. *)
Fixpoint insertSorted (x : string) (sorted : list string) : list string :=
  match sorted with
  | [] => [x]
  | y :: rest =>
      if localeCompare x y <? 0 then x :: y :: rest
      else y :: insertSorted x rest
  end.

(** [arr.sort((a, b) => a.localeCompare(b))].  [Array.prototype.sort] is
    stable, and with a consistent comparator, as a collation is, its result
    is the one obtained by inserting the elements one after the other. *)
Definition sortByLocale (arr : list string) : list string :=
  fold_left (fun sorted x => insertSorted x sorted) arr [].

Definition getUniqueValues (items : list value) (key : string) : list string :=
  sortByLocale (collect [] items key).

(** [["All", ...getUniqueValues(inventoryState.items, "make")]] *)
Definition makes (st : InventoryState) : list string :=
  "All" :: getUniqueValues (inv_items st) "make".

(** [["All", ...getUniqueValues(inventoryState.items, "body")]] *)
Definition bodies (st : InventoryState) : list string :=
  "All" :: getUniqueValues (inv_items st) "body".

End Sorting.

(** ** Loading the inventory *)

Definition LOAD_FAILED_MSG : string := "Failed to load inventory.".

Definition initialInventoryState : InventoryState :=
  {| loading := true; inv_source := "unknown"; inv_warning := "";
     inv_error := ""; inv_items := [] |}.

(** [setInventoryState((s) => ({ ...s, loading: true, error: "" }))] *)
Definition loadStarted (s : InventoryState) : InventoryState :=
  {| loading := true; inv_source := inv_source s; inv_warning := inv_warning s;
     inv_error := ""; inv_items := inv_items s |}.

(** What [load] does to the state once [fetchInventory] has settled;
    [cancelled] is set when the component was torn down meanwhile. *)
Definition loadSettled (cancelled : bool) (r : completion Snapshot)
    (s : InventoryState) : InventoryState :=
  if cancelled then s
  else
    match r with
    | Normal res =>
        {| loading := false;
           inv_source := source res;
           inv_warning := match warning res with
                          | Some w => if Str.isEmpty w then "" else w
                          | None => ""
                          end;
           inv_error := "";
           inv_items := items res |}
    | Throw e =>
        {| loading := false; inv_source := "unknown"; inv_warning := "";
           inv_error :=
             if Str.isEmpty (message e) then LOAD_FAILED_MSG else message e;
           inv_items := [] |}
    end.

Section Component.

Variable StringToNumber : string -> num.
Variable API_BASE : string.
Variable JSON_parse : string -> option value.
Variable server : list request -> request -> completion response.

(** The effect that loads the inventory when the page mounts: the state
    once the load has settled, with the requests made. *)
Definition load (cancelled : bool) (s : InventoryState) (log : list request)
  : list request * InventoryState :=
  let s := loadStarted s in
  let (log', r) := Api.fetchInventory API_BASE JSON_parse server log in
  (log', loadSettled cancelled r s).

(** ** The lead form, continued *)

(** The effect that runs when the page mounts: a visitor who is still
    in the cooldown finds the form blocked. *)
Definition leadCooldownEffect (now : Z) (p : Page) : completion Page :=
  let! remaining :=
    LeadThrottle.getLeadSubmissionCooldownRemainingMs
      StringToNumber (localStorage p) now VUndefined in
  if Num.gt remaining (Fin 0)
  then Normal (setLeadSubmitState
                 {| submitStatus := blocked; submitMessage := BLOCKED_MSG |} p)
  else Normal p.

Definition emptyLeadForm : LeadForm :=
  {| lf_name := ""; lf_dealership := ""; lf_title := ""; lf_email := "";
     lf_phone := ""; lf_message := ""; lf_interest := "Request a Demo" |}.

(** The click handler of the Reset button. *)
Definition resetLead (p : Page) : Page :=
  {| leadSubmitState := {| submitStatus := idle; submitMessage := "" |};
     leadErrors := [];
     leadForm := emptyLeadForm;
     localStorage := localStorage p;
     submitLeadCalls := submitLeadCalls p |}.

(** ** The resource dialog *)

Definition RESOURCE_READY_MSG : string :=
  "Thanks! Your download is ready below (and we’ll also email it to you).".

Definition RESOURCE_ERROR_MSG : string :=
  "We couldn’t send the resource request. Please try again or contact us directly.".

Definition validateResourceForm (values : ResourceForm)
  : completion (list (string * string)) :=
  let errs := [] in
  let! nameErr := validateRequired (VStr (rf_name values)) in
  let errs := note "name" nameErr errs in
  let! emailErr := validateEmail (VStr (rf_email values)) in
  let errs := note "email" emailErr errs in
  let! dealerErr := validateRequired (VStr (rf_dealership values)) in
  Normal (note "dealership" dealerErr errs).

(** [{ ...resourceForm, resourceId: selectedResource?.id }] *)
Definition resourcePayload (form : ResourceForm) (resource : value) : value :=
  VObj [("name", VStr (rf_name form));
        ("email", VStr (rf_email form));
        ("dealership", VStr (rf_dealership form));
        ("resourceId", JS.opt_get resource "id")].

Definition setResourceSubmitState (s : ResourceSubmitState) (d : ResourceDialog)
  : ResourceDialog :=
  {| resourceSubmitState := s; resourceErrors := resourceErrors d;
     resourceForm := resourceForm d; selectedResource := selectedResource d;
     resourceCalls := resourceCalls d |}.

Definition setResourceErrors (errs : list (string * string)) (d : ResourceDialog)
  : ResourceDialog :=
  {| resourceSubmitState := resourceSubmitState d; resourceErrors := errs;
     resourceForm := resourceForm d; selectedResource := selectedResource d;
     resourceCalls := resourceCalls d |}.

(** The call [submitGatedResourceRequest(payload)] leaving the
    component. *)
Definition callSubmitResource (req : value) (d : ResourceDialog) : ResourceDialog :=
  {| resourceSubmitState := resourceSubmitState d;
     resourceErrors := resourceErrors d; resourceForm := resourceForm d;
     selectedResource := selectedResource d;
     resourceCalls := (resourceCalls d ++ [req])%list |}.

(** [openResourceModal(resource)] *)
Definition openResourceModal (resource : value) (d : ResourceDialog)
  : ResourceDialog :=
  {| resourceSubmitState :=
       {| resourceStatus := idle; resourceMessage := VStr "";
          downloadUrl := VStr "" |};
     resourceErrors := [];
     resourceForm := {| rf_name := ""; rf_email := ""; rf_dealership := "" |};
     selectedResource := resource;
     resourceCalls := resourceCalls d |}.

(** [handleResourceSubmit] up to its [await]. *)
Definition handleResourceSubmit (d : ResourceDialog) : completion ResourceDialog :=
  match resourceStatus (resourceSubmitState d) with
  | submitting => Normal d
  | _ =>
      let! errs := validateResourceForm (resourceForm d) in
      let d := setResourceErrors errs d in
      match errs with
      | _ :: _ => Normal d
      | [] =>
          let d := setResourceSubmitState
                     {| resourceStatus := submitting;
                        resourceMessage := VStr ""; downloadUrl := VStr "" |} d in
          Normal (callSubmitResource
                    (resourcePayload (resourceForm d) (selectedResource d)) d)
      end
  end.

(** [handleResourceSubmit] after its [await]. *)
Definition resourceSubmitSettled (outcome : completion value) (d : ResourceDialog)
  : ResourceDialog :=
  match outcome with
  | Normal res =>
      setResourceSubmitState
        {| resourceStatus := success;
           resourceMessage :=
             JS.or (JS.opt_get res "message") (VStr RESOURCE_READY_MSG);
           downloadUrl := JS.or (JS.opt_get res "downloadUrl") (VStr "") |} d
  | Throw err =>
      setResourceSubmitState
        {| resourceStatus := failed;
           resourceMessage :=
             VStr (if Str.isEmpty (message err) then RESOURCE_ERROR_MSG
                   else message err);
           downloadUrl := VStr "" |} d
  end.

End Component.

End AppRest.

(* ================================================================== *)
(** * What the patterns and the forms accept, said without the code *)
(* ================================================================== *)

Module Shapes.

(** [Matches ps s]: the string is the concatenation of one segment per
    piece of the pattern, each segment made of characters of the piece's
    class, as long as the piece requires and no longer than it allows. *)
Inductive Matches : Regex.pattern -> string -> Prop :=
| Matches_nil : Matches [] ""
| Matches_cons (p : Regex.piece) (rest : Regex.pattern) (seg s : string) :
    Str.every (Regex.cls p) seg = true ->
    (Regex.least p <= String.length seg)%nat ->
    (Regex.more p = false -> String.length seg = Regex.least p) ->
    Matches rest s ->
    Matches (p :: rest) (seg ++ s).

(** A class that does not tell a letter from its lower-case form. *)
Definition caseBlind (p : ascii -> bool) : Prop :=
  forall c, p (Str.toLowerChar c) = p c.

(** A pattern all of whose classes are. *)
Definition caseBlindPattern (ps : Regex.pattern) : Prop :=
  Forall (fun p => caseBlind (Regex.cls p)) ps.

(** [local@domain.tld]: no white space and no further [@] anywhere, a
    local part and a domain that are not empty, and two characters or more
    after a dot that follows the domain. *)
Definition emailShaped (s : string) : Prop :=
  exists loc domain tld,
    s = loc ++ "@" ++ domain ++ "." ++ tld
    /\ loc <> "" /\ domain <> "" /\ (2 <= String.length tld)%nat
    /\ Str.every Validation.notSpaceNorAt (loc ++ domain ++ tld) = true.

(** A field that holds more than white space. *)
Definition filled (s : string) : Prop := Str.trim s <> "".

(** A lead form that passes [validateLeadForm]. *)
Definition validLead (f : LeadForm) : Prop :=
  filled (lf_name f) /\ filled (lf_dealership f) /\ filled (lf_title f)
  /\ emailShaped (Str.trim (lf_email f))
  /\ (filled (lf_phone f) -> Spec.phoneShaped (Str.trim (lf_phone f)) = true)
  /\ (filled (lf_message f) ->
      (10 <= String.length (Str.trim (lf_message f)))%nat).

(** The state of a blocked lead form. *)
Definition blockedState : SubmitState :=
  {| submitStatus := blocked; submitMessage := App.BLOCKED_MSG |}.

(** A resource form that passes [validateResourceForm]. *)
Definition validResource (f : ResourceForm) : Prop :=
  filled (rf_name f) /\ emailShaped (Str.trim (rf_email f))
  /\ filled (rf_dealership f).

(** Adjacent elements are in the order of the comparator: the later one
    does not sort strictly before the earlier one. *)
Fixpoint ascending (cmp : string -> string -> Z) (l : list string) : Prop :=
  match l with
  | [] => True
  | x :: rest =>
      match rest with
      | [] => True
      | y :: _ => ~ (cmp y x < 0)
      end /\ ascending cmp rest
  end.

(** The string of [n] slashes. *)
Fixpoint slashes (n : nat) : string :=
  match n with
  | O => EmptyString
  | S n' => String "/" (slashes n')
  end.

(** The last character of [s] is a slash. *)
Fixpoint endsWithSlash (s : string) : bool :=
  match s with
  | EmptyString => false
  | String c EmptyString => Ascii.eqb c "/"
  | String _ s' => endsWithSlash s'
  end.

End Shapes.

(* ================================================================== *)
(** * More concrete runtimes for the examples *)
(* ================================================================== *)

Module MoreExamples.

(** A [localeCompare] for the examples: the order of the code units. *)
Definition codeUnitCompare (a b : string) : Z :=
  match String.compare a b with
  | Lt => -1
  | Eq => 0
  | Gt => 1
  end.

(** A car whose make carries white space. *)
Definition paddedCar : value := VObj [("make", VStr " Honda ")].

Definition validResourceForm : ResourceForm :=
  {| rf_name := "Ada Lovelace"; rf_email := "ada@premier.example";
     rf_dealership := "Premier Cars" |}.

Definition buyersGuide : value := VObj [("id", VStr "resource-01")].

Definition freshDialog : ResourceDialog :=
  {| resourceSubmitState :=
       {| resourceStatus := idle; resourceMessage := VStr "";
          downloadUrl := VStr "" |};
     resourceErrors := []; resourceForm := validResourceForm;
     selectedResource := buyersGuide; resourceCalls := [] |}.

(** Every path answers 200 with an empty body. *)
Definition server200 (log : list request) (req : request) : completion response :=
  Normal (Examples.okWith "").

(** [fetch] rejects every request. *)
Definition serverDown (log : list request) (req : request) : completion response :=
  Throw (newError "Failed to fetch").

(** The path [/resources/request] answers 200 with the text [LINK], any
    other path 404. *)
Definition serverLink (log : list request) (req : request) : completion response :=
  if String.eqb (url req) "https://dealer.example/resources/request"
  then Normal (Examples.okWith "LINK")
  else Normal Examples.notFound.

(** The document [{downloadUrl: "/guide.pdf", ok: false}]. *)
Definition linkBody : value :=
  VObj [("downloadUrl", VStr "/guide.pdf"); ("ok", VBool false)].

Definition parseLink : string -> option value := Examples.parseOnly "LINK" linkBody.

(** Every path answers 422 with the text [TAKEN]. *)
Definition server422 (log : list request) (req : request) : completion response :=
  Normal {| res_status := 422; res_statusText := "Unprocessable Entity";
            res_text := "TAKEN" |}.

(** The document [{message: "Email already registered"}]. *)
Definition takenBody : value :=
  VObj [("message", VStr "Email already registered")].

Definition parseTaken : string -> option value :=
  Examples.parseOnly "TAKEN" takenBody.

(** A lead form with a name only. *)
Definition nameOnlyForm : LeadForm :=
  {| lf_name := "Ada"; lf_dealership := ""; lf_title := ""; lf_email := "";
     lf_phone := ""; lf_message := ""; lf_interest := "Request a Demo" |}.

End MoreExamples.

(* ================================================================== *)
(** * Facts about strings *)
(* ================================================================== *)

Module StrFacts.

Import Str.

(** Case analysis on the 256 characters. *)
Ltac each_char c := destruct c as [[] [] [] [] [] [] [] []].

Lemma isWhiteSpace_toLowerChar (c : ascii) :
  isWhiteSpace (toLowerChar c) = isWhiteSpace c.
Proof. each_char c; reflexivity. Qed.

Lemma isEmpty_true (s : string) : isEmpty s = true <-> s = "".
Proof. destruct s; simpl; split; congruence. Qed.

Lemma isEmpty_false (s : string) : isEmpty s = false <-> s <> "".
Proof. destruct s; simpl; split; congruence. Qed.

Lemma toLowerCase_empty (s : string) : toLowerCase s = "" <-> s = "".
Proof. destruct s; simpl; split; congruence. Qed.

Lemma trimStart_toLowerCase (s : string) :
  trimStart (toLowerCase s) = toLowerCase (trimStart s).
Proof.
  induction s as [|c s IH]; simpl; [reflexivity|].
  rewrite isWhiteSpace_toLowerChar.
  destruct (isWhiteSpace c); [exact IH | reflexivity].
Qed.

Lemma trimEnd_toLowerCase (s : string) :
  trimEnd (toLowerCase s) = toLowerCase (trimEnd s).
Proof.
  induction s as [|c s IH]; simpl; [reflexivity|].
  rewrite IH, isWhiteSpace_toLowerChar.
  destruct (trimEnd s); simpl; [destruct (isWhiteSpace c)|]; reflexivity.
Qed.

Lemma trim_toLowerCase (s : string) :
  trim (toLowerCase s) = toLowerCase (trim s).
Proof. unfold trim. now rewrite trimStart_toLowerCase, trimEnd_toLowerCase. Qed.

Lemma headed_trimStart (s : string) : headed (trimStart s).
Proof.
  induction s as [|c s IH]; simpl; [exact I|].
  destruct (isWhiteSpace c) eqn:E; [exact IH | exact E].
Qed.

Lemma headed_trimEnd (s : string) : headed s -> headed (trimEnd s).
Proof.
  destruct s as [|c s]; simpl; [trivial|]. intros H.
  destruct (trimEnd s); [rewrite H|]; exact H.
Qed.

Lemma trimEnd_idempotent (s : string) : trimEnd (trimEnd s) = trimEnd s.
Proof.
  induction s as [|c s IH]; simpl; [reflexivity|].
  destruct (trimEnd s) as [|d r] eqn:E.
  - destruct (isWhiteSpace c) eqn:W; simpl; [reflexivity | now rewrite W].
  - change (trimEnd (String c (String d r))) with
      (match trimEnd (String d r) with
       | EmptyString => if isWhiteSpace c then EmptyString else String c EmptyString
       | r' => String c r'
       end).
    now rewrite IH.
Qed.

Lemma headed_trim (s : string) : headed (trim s).
Proof. apply headed_trimEnd, headed_trimStart. Qed.

Lemma trimEnd_trim (s : string) : trimEnd (trim s) = trim s.
Proof. apply trimEnd_idempotent. Qed.

Lemma startsWith_empty (s : string) : startsWith s "" = true.
Proof. destruct s; reflexivity. Qed.

Lemma includes_empty (s : string) : includes s "" = true.
Proof. destruct s; reflexivity. Qed.

(** A string closed under [trimEnd] has a closed tail, and its last
    character is not white space. *)
Lemma trimEnd_fixed_tail (a : ascii) (q : string) :
  trimEnd (String a q) = String a q ->
  trimEnd q = q /\ (q = "" -> isWhiteSpace a = false).
Proof.
  simpl. destruct (trimEnd q) as [|d r] eqn:E.
  - destruct (isWhiteSpace a); intros H; [discriminate|].
    injection H as <-. split; [exact E | reflexivity].
  - intros H. injection H as <-. split; [reflexivity | discriminate].
Qed.

Lemma startsWith_trimEnd (s q : string) :
  trimEnd q = q -> startsWith (trimEnd s) q = startsWith s q.
Proof.
  revert q. induction s as [|c s IH]; intros q Hq; [reflexivity|].
  destruct q as [|a q]; [now rewrite !startsWith_empty|].
  destruct (trimEnd_fixed_tail _ _ Hq) as [Hq' Hlast].
  specialize (IH q Hq').
  cbn [trimEnd]. destruct (trimEnd s) as [|d r] eqn:E.
  - destruct (isWhiteSpace c) eqn:W.
    + cbn [startsWith]. destruct (Ascii.eqb a c) eqn:Eac; [|reflexivity].
      apply Ascii.eqb_eq in Eac. subst c. cbn [andb]. rewrite <- IH.
      destruct q; [|reflexivity].
      rewrite (Hlast eq_refl) in W. discriminate.
    + cbn [startsWith]. now rewrite <- IH.
  - cbn [startsWith]. now rewrite <- IH.
Qed.

Lemma includes_trimEnd (s q : string) :
  trimEnd q = q -> includes (trimEnd s) q = includes s q.
Proof.
  intros Hq. induction s as [|c s IH]; [reflexivity|].
  cbn [includes]. rewrite <- IH, <- (startsWith_trimEnd (String c s) _ Hq).
  cbn [trimEnd]. destruct (trimEnd s) as [|d r] eqn:E.
  - destruct (isWhiteSpace c); cbn [includes]; now rewrite ?orb_false_r, ?orb_diag.
  - reflexivity.
Qed.

Lemma includes_trimStart (s q : string) :
  q <> "" -> headed q -> includes (trimStart s) q = includes s q.
Proof.
  intros Hne Hq. induction s as [|c s IH]; [reflexivity|].
  cbn [trimStart]. destruct (isWhiteSpace c) eqn:W; [|reflexivity].
  rewrite IH. cbn [includes].
  destruct q as [|a q]; [congruence|]. cbn [startsWith headed] in *.
  destruct (Ascii.eqb a c) eqn:Eac; [|reflexivity].
  apply Ascii.eqb_eq in Eac. congruence.
Qed.

(** Trimming the text searched does not change whether a trimmed,
    non-empty needle occurs in it. *)
Lemma includes_trim (s q : string) :
  q <> "" -> headed q -> trimEnd q = q ->
  includes (trim s) q = includes s q.
Proof.
  intros Hne Hh He. unfold trim.
  now rewrite includes_trimEnd, includes_trimStart.
Qed.

End StrFacts.

Module RegexFacts.

Import Regex StrFacts.

(** A single open-ended class [c{n,}] accepts the strings of at least [n]
    characters, all of them in the class. *)
Lemma test_atLeast (p : ascii -> bool) (s : string) (n : nat) :
  test [Piece p n true] s = (Nat.leb n (String.length s) && Str.every p s)%bool.
Proof.
  revert n. induction s as [|c s IH]; intros n.
  - destruct n; reflexivity.
  - cbn [test step cls least more Str.every String.length].
    destruct (p c); cbn [andb].
    + destruct n as [|n]; cbn [app existsb]; rewrite IH, orb_false_r; reflexivity.
    + destruct n; cbn [app existsb]; now rewrite ?andb_false_r.
Qed.

End RegexFacts.

(* ================================================================== *)
(** * The field validators *)
(* ================================================================== *)

Module ValidationFacts.

Import Validation StrFacts.

Lemma phoneChar_allowed (c : ascii) : phoneChar c = Spec.phoneAllowed c.
Proof. each_char c; reflexivity. Qed.

Lemma every_ext (p q : ascii -> bool) (s : string) :
  (forall c, p c = q c) -> Str.every p s = Str.every q s.
Proof. intros H. induction s as [|c s IH]; simpl; [reflexivity | now rewrite H, IH]. Qed.

(** The phone pattern accepts exactly the phone-shaped strings. *)
Lemma PHONE_RE_shaped (s : string) : Regex.test PHONE_RE s = Spec.phoneShaped s.
Proof.
  unfold PHONE_RE, Regex.atLeast, Spec.phoneShaped.
  rewrite RegexFacts.test_atLeast.
  f_equal. apply every_ext, phoneChar_allowed.
Qed.

(** [validateRequired] answers every value. *)
Lemma validateRequired_total (v : value) :
  validateRequired v = Normal REQUIRED_MSG \/ validateRequired v = Normal "".
Proof.
  unfold validateRequired. destruct v; simpl; auto.
  destruct (Str.isEmpty (Str.trim s)); auto.
Qed.

(** [validateEmail] answers every value. *)
Lemma validateEmail_total (v : value) : returns (validateEmail v).
Proof.
  unfold validateEmail, validateRequired, returns.
  destruct v; cbn [JS.isString negb callTrim bindC Str.isEmpty REQUIRED_MSG];
    try (eexists; reflexivity).
  destruct (Str.isEmpty (Str.trim s)); cbn [bindC Str.isEmpty negb REQUIRED_MSG];
    [eexists; reflexivity|].
  destruct (Regex.test_i EMAIL_RE (Str.trim s)); eexists; reflexivity.
Qed.

(** [(value || "").trim()] on a string is its trimmed text. *)
Lemma callTrim_or_empty (s : string) :
  callTrim (JS.or (VStr s) (VStr "")) = Normal (Str.trim s).
Proof. destruct s; reflexivity. Qed.

(** On a string, [validatePhoneOptional] looks at the trimmed text only. *)
Lemma validatePhoneOptional_string (s : string) :
  validatePhoneOptional (VStr s) =
  Normal (if Str.isEmpty (Str.trim s) then ""
          else if Spec.phoneShaped (Str.trim s) then "" else PHONE_MSG).
Proof.
  unfold validatePhoneOptional. rewrite callTrim_or_empty. cbn [bindC].
  rewrite PHONE_RE_shaped.
  destruct (Str.isEmpty _); [reflexivity|].
  destruct (Spec.phoneShaped _); reflexivity.
Qed.

(** A falsy value stands for the empty string. *)
Lemma validatePhoneOptional_falsy (v : value) :
  JS.truthy v = false -> validatePhoneOptional v = Normal "".
Proof. unfold validatePhoneOptional, JS.or. intros ->. reflexivity. Qed.

(** A truthy value that is not a string has no [trim] to call. *)
Lemma validatePhoneOptional_raises (v : value) :
  JS.truthy v = true -> JS.isString v = false ->
  exists e, validatePhoneOptional v = Throw e.
Proof.
  unfold validatePhoneOptional, JS.or. intros -> Hs.
  destruct v; simpl in *; try discriminate; eexists; reflexivity.
Qed.

Lemma validateMinLen_raises (v : value) (min : num) (fieldName : value) :
  JS.truthy v = true -> JS.isString v = false ->
  exists e, validateMinLen v min fieldName = Throw e.
Proof.
  unfold validateMinLen, JS.or. intros -> Hs.
  destruct v; simpl in *; try discriminate; eexists; reflexivity.
Qed.

Example validateEmail_examples :
  validateEmail (VStr "not-an-email") = Normal EMAIL_MSG
  /\ validateEmail (VStr "a@b.co") = Normal ""
  /\ validateEmail (VStr " Ada@Premier.Example ") = Normal ""
  /\ validateEmail (VStr "a@b.c") = Normal EMAIL_MSG
  /\ validateEmail VUndefined = Normal REQUIRED_MSG.
Proof. repeat split. Qed.

Example validateMinLen_examples :
  validateMinLen (VStr "short") (Fin 10) (VStr "Message")
    = Normal "Message must be at least 10 characters."
  /\ validateMinLen (VStr "this is long enough") (Fin 10) (VStr "Message")
    = Normal ""
  /\ validateMinLen VUndefined (Fin 3) VUndefined
    = Normal "This field must be at least 3 characters.".
Proof. repeat split. Qed.

(** C5 (the claim fails on the code): [validatePhoneOptional] and
    [validateMinLen] do not answer every raw value.  Given a number where
    the field text is expected they call [trim] on it, which raises a
    [TypeError]; [validateRequired] and [validateEmail], which test the type
    first, answer the same input with their message. *)
Theorem validators_raise_on_a_number :
  validatePhoneOptional (VNum (Fin 5551234567))
    = Throw (TypeError "trim is not a function")
  /\ validateMinLen (VNum (Fin 5551234567)) (Fin 10) (VStr "Message")
    = Throw (TypeError "trim is not a function")
  /\ validateRequired (VNum (Fin 5551234567)) = Normal REQUIRED_MSG
  /\ validateEmail (VNum (Fin 5551234567)) = Normal REQUIRED_MSG.
Proof. repeat split. Qed.

(** C9 (the claim as stated fails): a string of three spaces is not empty,
    its trimmed text is not phone-shaped, and yet it passes. *)
Lemma phoneClaim_fails_on_blanks : ~ Spec.phoneClaim (VStr "   ").
Proof.
  intros [_ H].
  destruct (H "   " eq_refl) as [[Hpass _] _]; [discriminate|].
  specialize (Hpass eq_refl). discriminate Hpass.
Qed.

(** C9 (amended): [validatePhoneOptional] passes every empty or absent
    value and every string whose trimmed text is empty; a string whose
    trimmed text is not empty passes exactly when that text is phone-shaped
    (at least 7 characters, each a digit, white space, a parenthesis, [+],
    [-] or [.]), and is answered with a non-empty message otherwise. *)
Theorem validatePhoneOptional_blank_or_shaped (v : value) :
  (Spec.emptyOrAbsent v -> validatePhoneOptional v = Normal "")
  /\ (forall s, v = VStr s ->
      (Str.trim s = "" -> validatePhoneOptional v = Normal "")
      /\ (Str.trim s <> "" ->
          (validatePhoneOptional v = Normal ""
           <-> Spec.phoneShaped (Str.trim s) = true)
          /\ (Spec.phoneShaped (Str.trim s) = false ->
              exists msg, validatePhoneOptional v = Normal msg /\ msg <> ""))).
Proof.
  split.
  - intros [-> | [-> | ->]]; reflexivity.
  - intros s ->. rewrite validatePhoneOptional_string. split.
    + intros ->. reflexivity.
    + intros Hne. apply isEmpty_false in Hne. rewrite Hne.
      destruct (Spec.phoneShaped (Str.trim s)).
      * split; [tauto | discriminate].
      * split.
        -- split; [intros H | discriminate]. discriminate H.
        -- intros _. exists PHONE_MSG. split; [reflexivity | discriminate].
Qed.

(** The amended statement at work on a phone number and on a short
    string. *)
Lemma validatePhoneOptional_blank_or_shaped_witness :
  validatePhoneOptional (VStr " +1 (555) 010-2030 ") = Normal ""
  /\ exists msg, validatePhoneOptional (VStr "12345") = Normal msg /\ msg <> "".
Proof.
  split.
  - destruct (validatePhoneOptional_blank_or_shaped (VStr " +1 (555) 010-2030 "))
      as [_ H].
    destruct (H _ eq_refl) as [_ H'].
    destruct H' as [[_ Hpass] _]; [discriminate|].
    apply Hpass. reflexivity.
  - destruct (validatePhoneOptional_blank_or_shaped (VStr "12345")) as [_ H].
    destruct (H _ eq_refl) as [_ H'].
    destruct H' as [_ Hmsg]; [discriminate|].
    apply Hmsg. reflexivity.
Defined.

End ValidationFacts.

(* ================================================================== *)
(** * The lead throttle *)
(* ================================================================== *)

Module ThrottleFacts.

Import LeadThrottle StrFacts.

Lemma clamp_nonNegative (r : num) :
  Spec.nonNegative (if Num.gt r (Fin 0) then r else Fin 0).
Proof.
  unfold Spec.nonNegative, Num.gt.
  destruct r as [| | |z]; simpl; try reflexivity.
  destruct (0 <? z) eqn:E; simpl; [|reflexivity].
  apply Z.ltb_lt in E. apply Z.leb_le. lia.
Qed.

(** Once the elapsed time has reached the window nothing remains. *)
Lemma elapsed_window (w : num) (d : Z) :
  Num.le w (Fin d) = true -> Num.gt (Num.sub w (Fin d)) (Fin 0) = false.
Proof.
  destruct w as [| | |a]; simpl; try discriminate; [reflexivity|].
  intros H. apply Z.leb_le in H. apply Z.ltb_ge. lia.
Qed.

Section Throttle.

Variable StringToNumber : string -> num.

Local Abbreviation remainingMs :=
  (getLeadSubmissionCooldownRemainingMs StringToNumber).

(** The function as a case analysis on what the storage holds. *)
Lemma remainingMs_cases (st : Storage) (now : Z) (windowMs : value) :
  remainingMs st now windowMs =
  Normal
    match LocalStorage.getItem st STORAGE_KEY with
    | Normal (Some raw) =>
        if Str.isEmpty raw then Fin 0
        else match StringToNumber raw with
             | Fin ts =>
                 let remaining :=
                   Num.sub (JS.toNumber StringToNumber (windowOrDefault windowMs))
                     (Fin (now - ts)) in
                 if Num.gt remaining (Fin 0) then remaining else Fin 0
             | _ => Fin 0
             end
    | _ => Fin 0
    end.
Proof.
  unfold getLeadSubmissionCooldownRemainingMs, cooldownBody.
  destruct (LocalStorage.getItem st STORAGE_KEY) as [[raw|]|e]; cbn [bindC tryCatch];
    try reflexivity.
  destruct (Str.isEmpty raw); [reflexivity|].
  destruct (StringToNumber raw); reflexivity.
Qed.

(** C6: whatever [windowMs] is, [getLeadSubmissionCooldownRemainingMs]
    returns, and what it returns is not negative; it is 0 when no timestamp
    is persisted, when the persisted text is not a finite number, when the
    window has elapsed ([now - timestamp >= windowMs]) and when reading the
    storage throws. *)
Theorem cooldown_returns_non_negative (st : Storage) (now : Z) (windowMs : value) :
  exists r,
    remainingMs st now windowMs = Normal r
    /\ Spec.nonNegative r
    /\ (LocalStorage.getItem st STORAGE_KEY = Normal None
        \/ LocalStorage.getItem st STORAGE_KEY = Normal (Some "") -> r = Fin 0)
    /\ (forall raw,
          LocalStorage.getItem st STORAGE_KEY = Normal (Some raw) ->
          Num.isFinite (StringToNumber raw) = false -> r = Fin 0)
    /\ (forall raw ts,
          LocalStorage.getItem st STORAGE_KEY = Normal (Some raw) ->
          StringToNumber raw = Fin ts ->
          Num.le (JS.toNumber StringToNumber (windowOrDefault windowMs))
                 (Fin (now - ts)) = true ->
          r = Fin 0)
    /\ (forall e, LocalStorage.getItem st STORAGE_KEY = Throw e -> r = Fin 0).
Proof.
  rewrite remainingMs_cases. eexists. split; [reflexivity|].
  destruct (LocalStorage.getItem st STORAGE_KEY) as [[raw|]|e].
  - repeat split.
    + destruct (Str.isEmpty raw); [reflexivity|].
      destruct (StringToNumber raw); try reflexivity. apply clamp_nonNegative.
    + intros [H | H]; [discriminate | injection H as ->; reflexivity].
    + intros raw' H Hfin. injection H as <-.
      destruct (Str.isEmpty raw); [reflexivity|].
      destruct (StringToNumber raw); try reflexivity. discriminate.
    + intros raw' ts H Hts Hle. injection H as <-.
      destruct (Str.isEmpty raw); [reflexivity|].
      rewrite Hts. cbv zeta. now rewrite (elapsed_window _ _ Hle).
    + discriminate.
  - repeat split; try reflexivity; discriminate.
  - repeat split; try reflexivity; discriminate.
Qed.

(** The cooldown left by a persisted timestamp [t] ahead of the clock,
    as long as it comes out positive. *)
Lemma remainingMs_ahead
    (st : Storage) (now windowMs : Z) (raw : string) (t : Z) :
  LocalStorage.getItem st STORAGE_KEY = Normal (Some raw) ->
  raw <> "" ->
  StringToNumber raw = Fin t ->
  0 < windowMs + (t - now) ->
  remainingMs st now (VNum (Fin windowMs)) = Normal (Fin (windowMs + (t - now))).
Proof.
  intros Hget Hne Hts Hpos.
  rewrite remainingMs_cases, Hget.
  apply isEmpty_false in Hne. rewrite Hne, Hts.
  cbn [windowOrDefault JS.toNumber Num.sub Num.neg Num.add Num.gt Num.lt].
  replace (windowMs + - (now - t)) with (windowMs + (t - now)) by lia.
  apply Z.ltb_lt in Hpos. now rewrite Hpos.
Qed.

(** C10 (amended): a persisted timestamp [t] in the future makes the
    cooldown [windowMs + (t - now)], more than the window itself, for every
    window with [windowMs + (t - now) > 0], when the two subtractions of the
    function, [now - t] and [windowMs - (now - t)], are exact: the clock, the
    timestamp, the window and both differences are safe integers. *)
Theorem future_timestamp_exceeds_window
    (st : Storage) (now windowMs : Z) (raw : string) (t : Z) :
  LocalStorage.getItem st STORAGE_KEY = Normal (Some raw) ->
  raw <> "" ->
  StringToNumber raw = Fin t ->
  now < t ->
  0 < windowMs + (t - now) ->
  Num.exactSub now t = true ->
  Num.exactSub windowMs (now - t) = true ->
  remainingMs st now (VNum (Fin windowMs)) = Normal (Fin (windowMs + (t - now)))
  /\ windowMs < windowMs + (t - now).
Proof.
  intros Hget Hne Hts Hfuture Hpos _ _. split; [|lia].
  now apply remainingMs_ahead with (raw := raw).
Qed.

(** The function returns, and returns 0 unless what it returns is
    positive. *)
Lemma remainingMs_zero_or_positive (st : Storage) (now : Z) (windowMs : value) :
  exists r,
    remainingMs st now windowMs = Normal r
    /\ (Num.gt r (Fin 0) = false -> r = Fin 0).
Proof.
  rewrite remainingMs_cases. eexists. split; [reflexivity|].
  destruct (LocalStorage.getItem st STORAGE_KEY) as [[raw|]|e]; try reflexivity.
  destruct (Str.isEmpty raw); [reflexivity|].
  destruct (StringToNumber raw) as [| | |ts]; try reflexivity.
  cbv zeta.
  destruct (Num.gt (Num.sub _ _) (Fin 0)) eqn:E; [congruence | reflexivity].
Qed.

(** With a finite window a cooldown that has run out stays run out as
    the clock advances. *)
Lemma cooldown_stays_over (st : Storage) (now now' : Z) (windowMs : value) (w : Z) :
  JS.toNumber StringToNumber (windowOrDefault windowMs) = Fin w ->
  now <= now' ->
  remainingMs st now windowMs = Normal (Fin 0) ->
  remainingMs st now' windowMs = Normal (Fin 0).
Proof.
  intros Hw Hle. rewrite !remainingMs_cases, Hw.
  destruct (LocalStorage.getItem st STORAGE_KEY) as [[raw|]|e]; try reflexivity.
  destruct (Str.isEmpty raw); [reflexivity|].
  destruct (StringToNumber raw) as [| | |ts]; try reflexivity.
  cbn [Num.sub Num.neg Num.add Num.gt Num.lt].
  destruct (0 <? w + - (now - ts)) eqn:E.
  - intros H. injection H as H. apply Z.ltb_lt in E. lia.
  - intros _. apply Z.ltb_ge in E.
    assert ((0 <? w + - (now' - ts)) = false) as -> by (apply Z.ltb_ge; lia).
    reflexivity.
Qed.

End Throttle.

(** The cooldown of a browser with nothing persisted, and of one that
    denies access to its storage. *)
Lemma cooldown_returns_non_negative_witness :
  getLeadSubmissionCooldownRemainingMs
    Examples.decimalToNumber Examples.emptyStorage 1700000000000 VUndefined
  = Normal (Fin 0)
  /\ getLeadSubmissionCooldownRemainingMs
       Examples.decimalToNumber Examples.deniedStorage 1700000000000 VUndefined
     = Normal (Fin 0).
Proof.
  split.
  - destruct (cooldown_returns_non_negative Examples.decimalToNumber
                Examples.emptyStorage 1700000000000 VUndefined)
      as [r [E [_ [H _]]]].
    rewrite E. f_equal. apply H. left. reflexivity.
  - destruct (cooldown_returns_non_negative Examples.decimalToNumber
                Examples.deniedStorage 1700000000000 VUndefined)
      as [r [E [_ [_ [_ [_ H]]]]]].
    rewrite E. f_equal. apply (H LocalStorage.SecurityError). reflexivity.
Defined.

(** One hour after a submission 23 hours of the default window remain;
    a day after it nothing does. *)
Example cooldown_after_submission :
  let st := markLeadSubmitted Examples.emptyStorage 1700000000000 in
  getLeadSubmissionCooldownRemainingMs Examples.decimalToNumber st
    (1700000000000 + 3600000) VUndefined = Normal (Fin (23 * 3600000))
  /\ getLeadSubmissionCooldownRemainingMs Examples.decimalToNumber st
       (1700000000000 + DEFAULT_WINDOW_MS) VUndefined = Normal (Fin 0).
Proof. split; reflexivity. Qed.

(** C10 (the claim as stated fails): with the window [-100] and a
    timestamp 50 ms in the future the function returns 0, not [-50]. *)
Lemma futureTimestampClaim_fails_on_negative_window :
  ~ Spec.futureTimestampClaim
      Examples.decimalToNumber (Examples.storageWith "1050") 1000 (-100).
Proof.
  intros H.
  destruct (H "1050" 1050 eq_refl) as [E _];
    [discriminate | reflexivity | lia |].
  vm_compute in E. discriminate E.
Qed.

(** A timestamp one minute in the future under the default window. *)
Lemma future_timestamp_exceeds_window_witness :
  getLeadSubmissionCooldownRemainingMs Examples.decimalToNumber
    (Examples.storageWith "1700000060000") 1700000000000
    (VNum (Fin DEFAULT_WINDOW_MS))
  = Normal (Fin (DEFAULT_WINDOW_MS + (1700000060000 - 1700000000000))).
Proof.
  apply (future_timestamp_exceeds_window Examples.decimalToNumber
           (Examples.storageWith "1700000060000") 1700000000000
           DEFAULT_WINDOW_MS "1700000060000" 1700000060000);
    [reflexivity | discriminate | reflexivity | lia | reflexivity
    | reflexivity | reflexivity].
Defined.

End ThrottleFacts.

(* ================================================================== *)
(** * The inventory filter *)
(* ================================================================== *)

Module FilterFacts.

Import App StrFacts.

Lemma normalizeStr_string (s : string) :
  normalizeStr (VStr s) = Str.toLowerCase (Str.trim s).
Proof. destruct s; reflexivity. Qed.

(** The template literal is the space-joined list of the five fields. *)
Lemma haystackText_joined (car : value) : haystackText car = Spec.joinedFields car.
Proof. reflexivity. Qed.

Lemma trim_nonempty (s : string) : Str.trim s <> "" -> s <> "".
Proof. intros H ->. now apply H. Qed.

(** A normalised query is trimmed at both ends. *)
Lemma normalized_query_trimmed (s : string) :
  let q := Str.toLowerCase (Str.trim s) in
  Str.headed q /\ Str.trimEnd q = q.
Proof.
  cbv zeta. rewrite <- trim_toLowerCase. split;
    [apply headed_trim | apply trimEnd_trim].
Qed.

Lemma filter_all {A} (p : A -> bool) (l : list A) :
  (forall x, p x = true) -> filter p l = l.
Proof.
  intros H. induction l as [|x l IH]; simpl; [reflexivity|].
  now rewrite H, IH.
Qed.

Section Filter.

Variable StringToNumber : string -> num.

(** Searching the normalised haystack for the normalised query is
    searching the lower-cased joined fields for it: the haystack's own
    trimming cannot remove an occurrence of a trimmed query. *)
Lemma query_condition (f : Filters) (car : value) :
  let q := normalizeStr (VStr (query f)) in
  Str.isEmpty q || Str.includes (normalizeStr (VStr (haystackText car))) q
  = Spec.queryHolds f car.
Proof.
  cbv zeta. unfold Spec.queryHolds.
  rewrite !normalizeStr_string, haystackText_joined.
  destruct (Str.isEmpty (Str.toLowerCase (Str.trim (query f)))) eqn:E.
  - apply isEmpty_true in E. rewrite E, !includes_empty.
    now rewrite !orb_true_r.
  - apply isEmpty_false in E.
    assert (query f <> "") as Hq.
    { apply trim_nonempty. intros H. apply E. now rewrite H. }
    apply isEmpty_false in Hq. rewrite Hq. cbn [orb].
    destruct (normalized_query_trimmed (query f)) as [Hh He].
    rewrite <- trim_toLowerCase. now apply includes_trim.
Qed.

(** The price test of the code: a limit that is not finite lets every
    price through. *)
Lemma price_condition (f : Filters) (car : value) :
  let max :=
    if JS.strictEqStr (maxPrice f) "Any" then PInf
    else JS.toNumber StringToNumber (maxPrice f) in
  (if negb (Num.isFinite max) then true
   else Num.le (orZero (JS.toNumber StringToNumber (JS.opt_get car "price"))) max)
  = Spec.priceHoldsFinite StringToNumber f car.
Proof.
  cbv zeta. unfold Spec.priceHoldsFinite, Spec.priceOrZero.
  destruct (JS.strictEqStr (maxPrice f) "Any"); [reflexivity|]. cbn [orb].
  destruct (JS.toNumber StringToNumber (maxPrice f)) as [| | |m]; try reflexivity.
  cbn [Num.isFinite negb orb]. f_equal.
  destruct (JS.toNumber StringToNumber (JS.opt_get car "price")) as [| | |[| |]];
    reflexivity.
Qed.

Lemma matches_includedFinite (f : Filters) (car : value) :
  matches StringToNumber f
    (normalizeStr (VStr (query f)))
    (if JS.strictEqStr (maxPrice f) "Any" then PInf
     else JS.toNumber StringToNumber (maxPrice f))
    car
  = Spec.includedFinite StringToNumber f car.
Proof.
  unfold matches, Spec.includedFinite. cbv zeta.
  rewrite (query_condition f car), (price_condition f car).
  reflexivity.
Qed.

(** C1 (amended): the filter returns exactly the items, in their order,
    for which all four conditions hold: make is "All" or the item's make
    equals it exactly; body is "All" or the item's body equals it exactly;
    maxPrice is "Any" or is not a finite number, or the item's price, a
    non-numeric price counting as 0, is at most maxPrice; the query is
    empty, or the trimmed, lower-cased query occurs in the lower-cased
    space-joined title, make, model, body and year. *)
Theorem filteredInventory_exact (f : Filters) (cars : list value) :
  filteredInventory StringToNumber f cars
  = filter (Spec.includedFinite StringToNumber f) cars.
Proof.
  unfold filteredInventory. apply filter_ext. intros car.
  apply matches_includedFinite.
Qed.

(** C8: with the all-sentinel criteria the filter returns its input
    unchanged. *)
Theorem filteredInventory_no_filters (cars : list value) :
  filteredInventory StringToNumber Spec.noFilters cars = cars.
Proof.
  unfold filteredInventory. apply filter_all. intros car. reflexivity.
Qed.

(** What the filter returns is a subsequence of its input that it leaves
    alone when filtering again. *)
Lemma filteredInventory_idempotent (f : Filters) (cars : list value) :
  filteredInventory StringToNumber f (filteredInventory StringToNumber f cars)
  = filteredInventory StringToNumber f cars.
Proof.
  unfold filteredInventory.
  set (p := matches _ _ _ _). clearbody p.
  induction cars as [|c cars IH]; simpl; [reflexivity|].
  destruct (p c) eqn:E; simpl; [rewrite E, IH|]; auto.
Qed.

End Filter.

(** The built-in inventory searched for "suv" under $30,000, the limit
    given as the select box gives it. *)
Example filteredInventory_mock_suv :
  map (fun car => JS.opt_get car "id")
    (filteredInventory Examples.decimalToNumber
       {| query := "  SUV "; make := "All"; bodyStyle := "All";
          maxPrice := VStr "30000" |}
       Api.getMockInventory)
  = [VStr "car-002"; VStr "car-006"].
Proof. reflexivity. Qed.

(** C1 (the claim as stated fails): with the limit [NaN] the filter keeps
    the car, while no price is at most [NaN]. *)
Lemma filterClaim_fails_on_NaN_limit :
  ~ Spec.filterClaim Examples.decimalToNumber
      {| query := ""; make := "All"; bodyStyle := "All"; maxPrice := VNum NaN |}
      [Examples.carX].
Proof. unfold Spec.filterClaim. vm_compute. discriminate. Qed.

End FilterFacts.

(* ================================================================== *)
(** * Source resolution *)
(* ================================================================== *)

Module ApiFacts.

Import Api StrFacts.

Lemma UNAVAILABLE_MSG_nonempty : UNAVAILABLE_MSG <> "".
Proof. discriminate. Qed.

Lemma warningOf_nonempty (lastErr : option error) : warningOf lastErr <> "".
Proof.
  unfold warningOf. destruct lastErr as [e|]; [|discriminate].
  destruct (Str.isEmpty (message e)) eqn:E; [discriminate|].
  now apply isEmpty_false.
Qed.

Local Open Scope list_scope.

Section Client.

Variable API_BASE : string.
Variable JSON_parse : string -> option value.
Variable JSON_stringify : value -> string.
Variable server : list request -> request -> completion response.

Local Abbreviation requestJson := (Api.requestJson API_BASE JSON_parse server).
Local Abbreviation errorOf := (Api.errorOf JSON_parse server).
Local Abbreviation readItems := (Api.readItems API_BASE JSON_parse server).
Local Abbreviation getRequest := (Api.getRequest API_BASE).
Local Abbreviation getRequests := (Api.getRequests API_BASE).
Local Abbreviation postRequest := (Api.postRequest API_BASE JSON_stringify).
Local Abbreviation postRequests := (Api.postRequests API_BASE JSON_stringify).
Local Abbreviation fetchInventoryFrom :=
  (Api.fetchInventoryFrom API_BASE JSON_parse server).
Local Abbreviation fetchInventory := (Api.fetchInventory API_BASE JSON_parse server).
Local Abbreviation submitLeadFrom :=
  (Api.submitLeadFrom API_BASE JSON_parse JSON_stringify server).
Local Abbreviation submitLead :=
  (Api.submitLead API_BASE JSON_parse JSON_stringify server).
Local Abbreviation lastErrorFrom := (Api.lastErrorFrom JSON_parse server).
Local Abbreviation allFail := (Api.allFail API_BASE JSON_parse server).
Local Abbreviation allRaise := (Api.allRaise API_BASE JSON_parse JSON_stringify server).
Local Abbreviation quietAfter := (Api.quietAfter JSON_parse server).

(** One call of [requestJson] sends one request and classifies the
    answer. *)
Lemma requestJson_run (path method : string) (body : option string)
    (log : list request) :
  requestJson path method body log =
  (log ++ [requestFor API_BASE path method body],
   match server log (requestFor API_BASE path method body) with
   | Throw e => Throw e
   | Normal res =>
       if res_ok res then Normal (safeJson JSON_parse res)
       else Throw (httpError JSON_parse res)
   end).
Proof.
  unfold Api.requestJson, NetM.bind, fetch.
  destruct (server log _) as [res|e]; [|reflexivity].
  destruct (res_ok res); reflexivity.
Qed.

(** The test the loop makes on the body is structural validity. *)
Lemma itemsOf_bodyItems (data : value) :
  match itemsOf data with
  | VArr l => bodyItems data = Some l
  | _ => bodyItems data = None
  end.
Proof.
  destruct data; try reflexivity.
  unfold itemsOf, bodyItems. cbn [JS.isArray JS.opt_get].
  destruct (JS.lookup props "items"); reflexivity.
Qed.

(** ** The read loop, one candidate at a time *)

Lemma fetchInventoryFrom_success (path : string) (rest : list string)
    (lastErr : option error) (log : list request) (l : list value) :
  readItems log path = Some l ->
  fetchInventoryFrom (path :: rest) lastErr log =
  (log ++ [getRequest path],
   Normal {| source := "api"; items := l; warning := None |}).
Proof.
  unfold Api.readItems. intros H.
  cbn [Api.fetchInventoryFrom]. unfold NetM.bind, NetM.attempt.
  rewrite requestJson_run. fold (getRequest path).
  destruct (server log (getRequest path)) as [res|e]; [|discriminate].
  destruct (res_ok res); [|discriminate].
  pose proof (itemsOf_bodyItems (safeJson JSON_parse res)) as Hi.
  destruct (itemsOf (safeJson JSON_parse res)); try congruence.
  rewrite H in Hi. injection Hi as ->. reflexivity.
Qed.

Lemma fetchInventoryFrom_failure (path : string) (rest : list string)
    (lastErr : option error) (log : list request) :
  readItems log path = None ->
  fetchInventoryFrom (path :: rest) lastErr log =
  fetchInventoryFrom rest
    match errorOf log (getRequest path) with
    | Some e => Some e
    | None => lastErr
    end
    (log ++ [getRequest path]).
Proof.
  unfold Api.readItems, Api.errorOf. intros H.
  cbn [Api.fetchInventoryFrom]. unfold NetM.bind, NetM.attempt.
  rewrite requestJson_run. fold (getRequest path).
  destruct (server log (getRequest path)) as [res|e]; [|reflexivity].
  destruct (res_ok res); [|reflexivity].
  pose proof (itemsOf_bodyItems (safeJson JSON_parse res)) as Hi.
  destruct (itemsOf (safeJson JSON_parse res)); try reflexivity. congruence.
Qed.

Lemma allFail_tail (path : string) (rest : list string) (log : list request) :
  allFail (path :: rest) log ->
  readItems log path = None /\ allFail rest (log ++ [getRequest path]).
Proof.
  intros H. split.
  - specialize (H [] path rest eq_refl). cbn in H. now rewrite app_nil_r in H.
  - intros pre p post ->. rewrite <- app_assoc.
    apply (H (path :: pre) p post). reflexivity.
Qed.

Lemma fetchInventoryFrom_exhausted (candidates : list string)
    (lastErr : option error) (log : list request) :
  allFail candidates log ->
  fetchInventoryFrom candidates lastErr log =
  (log ++ getRequests candidates,
   Normal {| source := "mock"; items := getMockInventory;
             warning := Some (warningOf (lastErrorFrom getRequest candidates log lastErr)) |}).
Proof.
  revert lastErr log. induction candidates as [|path rest IH]; intros lastErr log H.
  - cbn. now rewrite app_nil_r.
  - destruct (allFail_tail _ _ _ H) as [Hp Hrest].
    rewrite (fetchInventoryFrom_failure _ _ _ _ Hp), (IH _ _ Hrest).
    cbn [Api.getRequests map Api.lastErrorFrom]. now rewrite <- app_assoc.
Qed.

Lemma fetchInventoryFrom_first_success (pre : list string) (path : string)
    (post : list string) (lastErr : option error) (log : list request)
    (l : list value) :
  allFail pre log ->
  readItems (log ++ getRequests pre) path = Some l ->
  fetchInventoryFrom (pre ++ path :: post) lastErr log =
  (log ++ getRequests (pre ++ [path]),
   Normal {| source := "api"; items := l; warning := None |}).
Proof.
  revert lastErr log. induction pre as [|p pre IH]; intros lastErr log Hpre Hok.
  - cbn in Hok. rewrite app_nil_r in Hok.
    apply (fetchInventoryFrom_success _ _ _ _ _ Hok).
  - destruct (allFail_tail _ _ _ Hpre) as [Hp Hrest].
    cbn [app]. rewrite (fetchInventoryFrom_failure _ _ _ _ Hp).
    rewrite (IH _ (log ++ [getRequest p]) Hrest).
    + cbn [Api.getRequests map]. now rewrite <- app_assoc.
    + rewrite <- app_assoc. exact Hok.
Qed.

(** ** The last error *)

Lemma lastErrorFrom_app (mk : string -> request) (pre post : list string)
    (log : list request) (lastErr : option error) :
  lastErrorFrom mk (pre ++ post) log lastErr =
  lastErrorFrom mk post (log ++ map mk pre) (lastErrorFrom mk pre log lastErr).
Proof.
  revert log lastErr. induction pre as [|p pre IH]; intros log lastErr.
  - cbn. now rewrite app_nil_r.
  - cbn [app map Api.lastErrorFrom]. rewrite IH. now rewrite <- app_assoc.
Qed.

Lemma lastErrorFrom_quiet (mk : string -> request) (candidates : list string)
    (log : list request) (lastErr : option error) :
  (forall pre p post,
     candidates = pre ++ p :: post -> errorOf (log ++ map mk pre) (mk p) = None) ->
  lastErrorFrom mk candidates log lastErr = lastErr.
Proof.
  revert log. induction candidates as [|c rest IH]; intros log H; [reflexivity|].
  cbn [Api.lastErrorFrom].
  pose proof (H [] c rest eq_refl) as Hc. cbn in Hc. rewrite app_nil_r in Hc.
  rewrite Hc. apply IH. intros pre p post ->.
  rewrite <- app_assoc. apply (H (c :: pre) p post). reflexivity.
Qed.

(** The loop ends with the error of the last candidate that raised one. *)
Lemma lastErrorFrom_last (mk : string -> request) (pre : list string) (p : string)
    (post : list string) (log : list request) (lastErr : option error) (e : error) :
  errorOf (log ++ map mk pre) (mk p) = Some e ->
  quietAfter mk pre p post log ->
  lastErrorFrom mk (pre ++ p :: post) log lastErr = Some e.
Proof.
  intros He Hq. rewrite lastErrorFrom_app. cbn [Api.lastErrorFrom]. rewrite He.
  apply lastErrorFrom_quiet. intros post1 p' post2 Hpost.
  specialize (Hq post1 p' post2 Hpost).
  rewrite map_app in Hq. cbn [map] in Hq.
  now rewrite <- !app_assoc.
Qed.

(** ** The write loop *)

Lemma submitLeadFrom_failure (path : string) (rest : list string) (lead : value)
    (lastErr : option error) (log : list request) (e : error) :
  errorOf log (postRequest lead path) = Some e ->
  submitLeadFrom (path :: rest) lead lastErr log =
  submitLeadFrom rest lead (Some e) (log ++ [postRequest lead path]).
Proof.
  unfold Api.errorOf. intros H.
  cbn [Api.submitLeadFrom]. unfold NetM.bind, NetM.attempt.
  rewrite requestJson_run. fold (postRequest lead path).
  destruct (server log (postRequest lead path)) as [res|e'].
  - destruct (res_ok res); [discriminate|]. now injection H as <-.
  - now injection H as <-.
Qed.

Lemma submitLeadFrom_exhausted (candidates : list string) (lead : value)
    (lastErr : option error) (log : list request) :
  allRaise lead candidates log ->
  submitLeadFrom candidates lead lastErr log =
  (log ++ postRequests lead candidates,
   Throw match lastErrorFrom (postRequest lead) candidates log lastErr with
         | Some e => e
         | None => newError LEAD_FAILED_MSG
         end).
Proof.
  revert lastErr log. induction candidates as [|path rest IH]; intros lastErr log H.
  - cbn. now rewrite app_nil_r.
  - pose proof (H [] path rest eq_refl) as Hp. cbn in Hp. rewrite app_nil_r in Hp.
    destruct (errorOf log (postRequest lead path)) as [e|] eqn:E; [|congruence].
    rewrite (submitLeadFrom_failure _ _ _ _ _ _ E), IH.
    + cbn [Api.postRequests map Api.lastErrorFrom]. rewrite E.
      now rewrite <- app_assoc.
    + intros pre p post ->. rewrite <- app_assoc.
      apply (H (path :: pre) p post). reflexivity.
Qed.

(** C2: with a backend configured, when every candidate fails (its
    request is rejected, its response is not 2xx, or its 2xx body is neither
    an array nor an object with an [items] array) [fetchInventory] does not
    raise: it has tried the four candidates and returns the source "mock",
    the built-in inventory and a warning that is not empty.  The warning is
    the message of the last error a candidate raised, and the stock message
    when that message is empty or no candidate raised one. *)
Theorem fetchInventory_falls_back_to_mock (log : list request) :
  hasApiBase API_BASE = true ->
  allFail INVENTORY_CANDIDATES log ->
  exists w,
    fetchInventory log =
      (log ++ getRequests INVENTORY_CANDIDATES,
       Normal {| source := "mock"; items := getMockInventory; warning := Some w |})
    /\ w <> ""
    /\ (forall pre p post e,
          INVENTORY_CANDIDATES = pre ++ p :: post ->
          errorOf (log ++ getRequests pre) (getRequest p) = Some e ->
          quietAfter getRequest pre p post log ->
          w = if Str.isEmpty (message e) then UNAVAILABLE_MSG else message e)
    /\ ((forall pre p post,
           INVENTORY_CANDIDATES = pre ++ p :: post ->
           errorOf (log ++ getRequests pre) (getRequest p) = None) ->
        w = UNAVAILABLE_MSG).
Proof.
  intros Hbase Hfail.
  exists (warningOf (lastErrorFrom getRequest INVENTORY_CANDIDATES log None)).
  split; [|split; [|split]].
  - unfold Api.fetchInventory. rewrite Hbase. cbn [negb].
    apply fetchInventoryFrom_exhausted, Hfail.
  - apply warningOf_nonempty.
  - intros pre p post e Hsplit He Hquiet. rewrite Hsplit.
    now rewrite (lastErrorFrom_last getRequest pre p post log None e He Hquiet).
  - intros Hnone. now rewrite lastErrorFrom_quiet.
Qed.

(** C3: the candidates are tried in the order listed, each once, up to
    the first whose response is 2xx with a structurally valid body; that one
    ends the resolution with the source "api", its items and no warning, and
    nothing listed after it is requested. *)
Theorem fetchInventory_first_valid_candidate
    (pre : list string) (path : string) (post : list string)
    (lastErr : option error) (log : list request) (l : list value) :
  allFail pre log ->
  readItems (log ++ getRequests pre) path = Some l ->
  fetchInventoryFrom (pre ++ path :: post) lastErr log =
    (log ++ getRequests (pre ++ [path]),
     Normal {| source := "api"; items := l; warning := None |})
  /\ (hasApiBase API_BASE = true ->
      INVENTORY_CANDIDATES = pre ++ path :: post ->
      fetchInventory log =
        (log ++ getRequests (pre ++ [path]),
         Normal {| source := "api"; items := l; warning := None |})).
Proof.
  intros Hpre Hok. split.
  - now apply fetchInventoryFrom_first_success.
  - intros Hbase Hc. unfold Api.fetchInventory. rewrite Hbase, Hc. cbn [negb].
    now apply fetchInventoryFrom_first_success.
Qed.

(** C4: with a backend configured, when every candidate of a lead
    submission fails, [submitLead] has tried them all and raises the error
    of the candidate tried last; it returns no receipt. *)
Theorem submitLead_raises_last_error
    (lead : value) (pre : list string) (final : string)
    (lastErr : option error) (log : list request) :
  allRaise lead (pre ++ [final]) log ->
  exists e,
    errorOf (log ++ postRequests lead pre) (postRequest lead final) = Some e
    /\ submitLeadFrom (pre ++ [final]) lead lastErr log =
         (log ++ postRequests lead (pre ++ [final]), Throw e)
    /\ (hasApiBase API_BASE = true ->
        LEAD_CANDIDATES = pre ++ [final] ->
        submitLead lead log =
          (log ++ postRequests lead LEAD_CANDIDATES, Throw e)).
Proof.
  intros Hall.
  destruct (errorOf (log ++ postRequests lead pre) (postRequest lead final))
    as [e|] eqn:E; [|now destruct (Hall pre final [] eq_refl)].
  assert (lastErrorFrom (postRequest lead) (pre ++ [final]) log lastErr = Some e)
    as Hlast.
  { apply lastErrorFrom_last; [exact E|]. intros [|? ?] ? ? H; discriminate H. }
  assert (forall lastErr',
            lastErrorFrom (postRequest lead) (pre ++ [final]) log lastErr' = Some e)
    as Hany.
  { intros lastErr'. apply lastErrorFrom_last; [exact E|].
    intros [|? ?] ? ? H; discriminate H. }
  exists e. split; [reflexivity|]. split.
  - rewrite (submitLeadFrom_exhausted _ _ _ _ Hall). now rewrite Hlast.
  - intros Hbase Hc. unfold Api.submitLead. rewrite Hbase, Hc. cbn [negb].
    rewrite (submitLeadFrom_exhausted _ _ _ _ Hall). now rewrite Hany.
Qed.

End Client.

Lemma server404_allFail (base : string) (parse : string -> option value)
    (candidates : list string) (log : list request) :
  allFail base parse Examples.server404 candidates log.
Proof. intros pre p post _. reflexivity. Qed.

(** Four candidates answering 404: the page gets the built-in inventory
    and the message of the last 404. *)
Lemma fetchInventory_falls_back_to_mock_witness :
  fetchInventory Examples.dealer Examples.parseItems Examples.server404 [] =
  (getRequests Examples.dealer INVENTORY_CANDIDATES,
   Normal {| source := "mock"; items := getMockInventory;
             warning := Some "Request failed (404 Not Found)" |}).
Proof.
  destruct (fetchInventory_falls_back_to_mock
              Examples.dealer Examples.parseItems Examples.server404 []
              eq_refl (server404_allFail _ _ _ _))
    as [w [E [_ [Hlast _]]]].
  rewrite (Hlast ["/api/inventory"; "/inventory"; "/api/cars"] "/cars" []
             (httpError Examples.parseItems Examples.notFound)) in E;
    [exact E | reflexivity | reflexivity |].
  intros [|? ?] ? ? H; discriminate H.
Defined.

(** Candidates [A, B] where A answers 404 and B answers
    [{items: [x, y]}]. *)
Lemma fetchInventory_first_valid_candidate_witness :
  fetchInventoryFrom Examples.dealer Examples.parseItems Examples.serverAB
    ["/A"; "/B"] None [] =
  ([getRequest Examples.dealer "/A"; getRequest Examples.dealer "/B"],
   Normal {| source := "api"; items := [Examples.carX; Examples.carY];
             warning := None |}).
Proof.
  apply (fetchInventory_first_valid_candidate
           Examples.dealer Examples.parseItems Examples.serverAB
           ["/A"] "/B" [] None [] [Examples.carX; Examples.carY]).
  - intros [|? [|? ?]] p post H; try discriminate H.
    injection H as <- <-. reflexivity.
  - reflexivity.
Defined.

(** Four candidates answering 404 to a lead: the error of [/contact] is
    raised. *)
Lemma submitLead_raises_last_error_witness :
  submitLead Examples.dealer Examples.parseItems Examples.stringifyOpaque
    Examples.server404 (VStr "lead") [] =
  (postRequests Examples.dealer Examples.stringifyOpaque (VStr "lead")
     LEAD_CANDIDATES,
   Throw (httpError Examples.parseItems Examples.notFound)).
Proof.
  destruct (submitLead_raises_last_error
              Examples.dealer Examples.parseItems Examples.stringifyOpaque
              Examples.server404 (VStr "lead")
              ["/api/leads"; "/leads"; "/api/contact"] "/contact" None [])
    as [e [He [_ Hsubmit]]].
  - intros pre p post _. discriminate.
  - injection He as <-. apply Hsubmit; reflexivity.
Defined.

End ApiFacts.

(* ================================================================== *)
(** * The lead form *)
(* ================================================================== *)

Module LeadFormFacts.

Import App.

Local Open Scope list_scope.

Section Component.

Variable StringToNumber : string -> num.
Variable toISOString : Z -> string.

Local Abbreviation handleLeadSubmitOf :=
  (App.handleLeadSubmitOf StringToNumber toISOString).
Local Abbreviation remainingMs :=
  (LeadThrottle.getLeadSubmissionCooldownRemainingMs StringToNumber).




(** The handler of a render that does not show a submission in flight
    passes a valid form on, whatever the page has become since. *)
Lemma handleLeadSubmit_stale (render : Page) (now : Z) (p : Page) :
  remainingMs (localStorage p) now VUndefined = Normal (Fin 0) ->
  submitStatus (leadSubmitState render) <> submitting ->
  validateLeadForm (leadForm render) = Normal [] ->
  exists p',
    handleLeadSubmitOf render now p = Normal p'
    /\ submitLeadCalls p' =
       submitLeadCalls p ++ [leadPayload toISOString (leadForm render) now].
Proof.
  intros Hcool Hs Hvalid. unfold App.handleLeadSubmitOf.
  rewrite Hcool. cbn [bindC Num.gt Num.lt Z.ltb Z.compare].
  rewrite Hvalid. cbn [bindC].
  destruct (submitStatus (leadSubmitState render)); try congruence;
    (eexists; split; [reflexivity | reflexivity]).
Qed.


End Component.



End LeadFormFacts.

(* ================================================================== *)
(** * More about strings *)
(* ================================================================== *)

Module StrMore.

Import Str StrFacts.

Lemma trimStart_headed (s : string) : headed s -> trimStart s = s.
Proof. destruct s as [|c s]; simpl; [reflexivity|]. now intros ->. Qed.

Lemma trim_idempotent (s : string) : trim (trim s) = trim s.
Proof.
  unfold trim at 1. rewrite (trimStart_headed _ (headed_trim s)).
  apply trimEnd_trim.
Qed.

Lemma toLowerChar_idempotent (c : ascii) :
  toLowerChar (toLowerChar c) = toLowerChar c.
Proof. each_char c; reflexivity. Qed.

Lemma toLowerCase_idempotent (s : string) :
  toLowerCase (toLowerCase s) = toLowerCase s.
Proof.
  induction s as [|c s IH]; simpl; [reflexivity|].
  now rewrite toLowerChar_idempotent, IH.
Qed.

Lemma every_app (p : ascii -> bool) (a b : string) :
  every p (a ++ b) = every p a && every p b.
Proof.
  induction a as [|c a IH]; simpl; [reflexivity|].
  now rewrite IH, andb_assoc.
Qed.

Lemma length_app (a b : string) :
  String.length (a ++ b) = (String.length a + String.length b)%nat.
Proof. induction a as [|c a IH]; simpl; [reflexivity | now rewrite IH]. Qed.

Lemma app_empty_r (a : string) : a ++ "" = a.
Proof. induction a as [|c a IH]; simpl; [reflexivity | now rewrite IH]. Qed.

Lemma app_assoc (a b c : string) : (a ++ b) ++ c = a ++ b ++ c.
Proof. induction a as [|x a IH]; simpl; [reflexivity | now rewrite IH]. Qed.

Lemma trimStart_blank (s : string) :
  trimStart s = "" <-> every isWhiteSpace s = true.
Proof.
  induction s as [|c s IH]; simpl; [tauto|].
  destruct (isWhiteSpace c); simpl; [exact IH|]. split; discriminate.
Qed.

Lemma trimEnd_blank (s : string) :
  trimEnd s = "" <-> every isWhiteSpace s = true.
Proof.
  induction s as [|c s IH]; simpl; [tauto|].
  destruct (trimEnd s) as [|d r].
  - destruct (isWhiteSpace c); simpl.
    + split; intros _; [now apply IH | reflexivity].
    + split; discriminate.
  - split; [discriminate|]. intros H. apply andb_true_iff in H.
    destruct H as [_ H]. apply IH in H. discriminate H.
Qed.

(** What [trimStart] leaves is blank only if the string was. *)
Lemma every_trimStart (s : string) :
  every isWhiteSpace (trimStart s) = every isWhiteSpace s.
Proof.
  induction s as [|c s IH]; simpl; [reflexivity|].
  destruct (isWhiteSpace c) eqn:E; simpl; [exact IH | now rewrite E].
Qed.

(** Only a string of white space trims to nothing. *)
Lemma trim_blank (s : string) : trim s = "" <-> every isWhiteSpace s = true.
Proof. unfold trim. now rewrite trimEnd_blank, every_trimStart. Qed.

Lemma stripTrailingSlashes_slash (s : string) :
  stripTrailingSlashes (s ++ "/") = stripTrailingSlashes s.
Proof.
  induction s as [|c s IH]; [reflexivity|].
  cbn [append stripTrailingSlashes]. now rewrite IH.
Qed.

End StrMore.

(* ================================================================== *)
(** * What a pattern accepts *)
(* ================================================================== *)

Module RegexSemantics.

Import Regex Shapes StrFacts StrMore.

Local Open Scope list_scope.

(** Reading a character [c] that a state reached by [step] goes on to
    accept from is accepting the string that starts with [c]. *)
Lemma Matches_step (ps ps' : pattern) (c : ascii) (s : string) :
  In ps' (step ps c) -> Matches ps' s -> Matches ps (String c s).
Proof.
  revert ps'. induction ps as [|p rest IH]; intros ps' Hin Hm; [destruct Hin|].
  cbn [step] in Hin. apply in_app_or in Hin. destruct Hin as [Htake | Hskip].
  - destruct (cls p c) eqn:Hc; [|destruct Htake].
    destruct (least p) as [|n] eqn:Hl.
    + destruct (more p) eqn:Hmore; [|destruct Htake].
      destruct Htake as [<- | []].
      inversion Hm as [|p0 rest0 seg s0 Hall Hlo Hhi Hrest]; subst.
      apply (Matches_cons p rest (String c seg) s0); cbn;
        [now rewrite Hc | lia | congruence | exact Hrest].
    + destruct Htake as [<- | []].
      inversion Hm as [|p0 rest0 seg s0 Hall Hlo Hhi Hrest]; subst.
      cbn in Hall, Hlo, Hhi.
      apply (Matches_cons p rest (String c seg) s0); cbn;
        [now rewrite Hc | lia | | exact Hrest].
      intros Hmore. rewrite (Hhi Hmore). now rewrite Hl.
  - destruct (least p) eqn:Hl; [|destruct Hskip].
    apply (Matches_cons p rest "" (String c s)); cbn;
      [reflexivity | lia | now intros _ | now apply (IH ps')].
Qed.

Lemma test_sound (s : string) : forall ps, test ps s = true -> Matches ps s.
Proof.
  induction s as [|c s IH]; intros ps H.
  - cbn in H. induction ps as [|p rest IHps]; [constructor|].
    cbn in H. apply andb_true_iff in H. destruct H as [Hp Hrest].
    apply Nat.eqb_eq in Hp.
    apply (Matches_cons p rest "" ""); cbn;
      [reflexivity | lia | now intros _ | now apply IHps].
  - cbn [test] in H. apply existsb_exists in H. destruct H as [ps' [Hin Ht]].
    apply (Matches_step ps ps' c s Hin). now apply IH.
Qed.

Lemma existsb_app_r {A} (f : A -> bool) (l l' : list A) :
  existsb f l' = true -> existsb f (l ++ l') = true.
Proof. intros H. rewrite existsb_app, H. apply orb_true_r. Qed.

Lemma test_complete (s : string) : forall ps, Matches ps s -> test ps s = true.
Proof.
  induction s as [|c s IH]; intros ps Hm.
  - remember "" as e eqn:He. induction Hm as [|p rest seg s0 Hall Hlo Hhi Hrest IHm];
      [reflexivity|].
    destruct seg; [|discriminate He]. cbn in He. subst s0.
    cbn in Hlo. specialize (IHm eq_refl). cbn [test append] in IHm |- *.
    unfold nullable in *. cbn [forallb]. rewrite IHm.
    replace (least p) with 0%nat by lia. reflexivity.
  - remember (String c s) as cs eqn:Hcs.
    induction Hm as [|p rest seg s0 Hall Hlo Hhi Hrest IHm]; [discriminate Hcs|].
    destruct seg as [|d seg].
    + cbn in Hcs. subst s0. cbn in Hlo.
      specialize (IHm eq_refl). cbn [test append] in IHm |- *.
      cbn [step]. destruct (least p); [|lia].
      now apply existsb_app_r.
    + cbn in Hcs. injection Hcs as -> <-.
      cbn in Hall. apply andb_true_iff in Hall. destruct Hall as [Hc Hall].
      cbn [test step append]. rewrite Hc. cbn in Hlo, Hhi.
      destruct (least p) as [|n] eqn:Hl.
      * destruct (more p) eqn:Hmore; [|now specialize (Hhi eq_refl)].
        cbn [app existsb]. apply orb_true_iff. left. apply IH.
        apply (Matches_cons p rest seg s0); [exact Hall | lia | congruence | exact Hrest].
      * cbn [app existsb]. apply orb_true_iff. left. apply IH.
        apply (Matches_cons (Piece (cls p) n (more p)) rest seg s0); cbn;
          [exact Hall | lia | | exact Hrest].
        intros Hmore. specialize (Hhi Hmore). lia.
Qed.

(** The matcher accepts exactly the strings the pattern describes. *)
Lemma test_Matches (ps : pattern) (s : string) :
  test ps s = true <-> Matches ps s.
Proof. split; [apply test_sound | apply test_complete]. Qed.

(** ** Patterns that do not look at the case *)

Lemma step_caseBlind (ps : pattern) (c : ascii) :
  caseBlindPattern ps ->
  step ps (Str.toLowerChar c) = step ps c
  /\ Forall caseBlindPattern (step ps c).
Proof.
  induction ps as [|p rest IH]; intros Hps; [split; [reflexivity | constructor]|].
  inversion Hps as [|p0 rest0 Hp Hrest]; subst.
  destruct (IH Hrest) as [IHeq IHall]. split.
  - cbn [step]. now rewrite Hp, IHeq.
  - cbn [step]. apply Forall_app. split.
    + destruct (cls p c); [|constructor].
      destruct (least p); [destruct (more p)|]; repeat constructor; assumption.
    + destruct (least p); [exact IHall | constructor].
Qed.

Lemma test_toLowerCase (s : string) :
  forall ps, caseBlindPattern ps -> test ps (Str.toLowerCase s) = test ps s.
Proof.
  induction s as [|c s IH]; intros ps Hps; [reflexivity|].
  cbn [Str.toLowerCase test].
  destruct (step_caseBlind ps c Hps) as [-> Hall].
  induction (step ps c) as [|ps' l IHl]; [reflexivity|].
  inversion Hall as [|x y Hps' Hl]; subst.
  cbn [existsb]. now rewrite (IH ps' Hps'), (IHl Hl).
Qed.

End RegexSemantics.

(* ================================================================== *)
(** * More about the validators *)
(* ================================================================== *)

Module ValidatorsMore.

Import Validation Shapes StrFacts StrMore.

Lemma validateRequired_string (s : string) :
  validateRequired (VStr s) =
  Normal (if Str.isEmpty (Str.trim s) then REQUIRED_MSG else "").
Proof.
  unfold validateRequired. cbn. now destruct (Str.isEmpty (Str.trim s)).
Qed.

Lemma validateEmail_string (s : string) :
  validateEmail (VStr s) =
  Normal (if Str.isEmpty (Str.trim s) then REQUIRED_MSG
          else if Regex.test_i EMAIL_RE (Str.trim s) then "" else EMAIL_MSG).
Proof.
  unfold validateEmail. rewrite validateRequired_string.
  destruct (Str.isEmpty (Str.trim s)); [reflexivity|]. cbn.
  now destruct (Regex.test_i EMAIL_RE (Str.trim s)).
Qed.

Lemma validateMinLen_string (s : string) (min : num) (fieldName : value) :
  validateMinLen (VStr s) min fieldName =
  Normal (if Num.lt (Fin (Z.of_nat (String.length (Str.trim s)))) min
          then JS.toString (fieldNameOrDefault fieldName)
               ++ " must be at least " ++ Num.toString min ++ " characters."
          else "").
Proof.
  unfold validateMinLen.
  rewrite ValidationFacts.callTrim_or_empty. cbn [bindC].
  now destruct (Num.lt _ min).
Qed.

(** X1: each validator answers a string as it answers its trimmed text:
    white space around a value neither helps nor hurts it. *)
Theorem validators_ignore_surrounding_space
    (s : string) (min : num) (fieldName : value) :
  validateRequired (VStr (Str.trim s)) = validateRequired (VStr s)
  /\ validateEmail (VStr (Str.trim s)) = validateEmail (VStr s)
  /\ validatePhoneOptional (VStr (Str.trim s)) = validatePhoneOptional (VStr s)
  /\ validateMinLen (VStr (Str.trim s)) min fieldName
     = validateMinLen (VStr s) min fieldName.
Proof.
  rewrite !validateRequired_string, !validateEmail_string,
    !ValidationFacts.validatePhoneOptional_string, !validateMinLen_string,
    !trim_idempotent.
  repeat split.
Qed.

(** ** The e-mail pattern *)

Lemma EMAIL_RE_caseBlind : caseBlindPattern EMAIL_RE.
Proof.
  repeat constructor; intros c; each_char c; reflexivity.
Qed.

(** The flag [i] makes no difference to [EMAIL_RE]. *)
Lemma EMAIL_RE_test_i (s : string) :
  Regex.test_i EMAIL_RE s = Regex.test EMAIL_RE s.
Proof. apply RegexSemantics.test_toLowerCase, EMAIL_RE_caseBlind. Qed.

Lemma every_eqb_one (a : ascii) (seg : string) :
  Str.every (Ascii.eqb a) seg = true -> String.length seg = 1%nat ->
  seg = String a "".
Proof.
  destruct seg as [|c [|d seg]]; cbn; try discriminate.
  rewrite andb_true_r. intros H _. apply Ascii.eqb_eq in H. now subst.
Qed.

Lemma nonempty_length (s : string) : (1 <= String.length s)%nat <-> s <> "".
Proof. destruct s; cbn; split; intros H; try congruence; lia. Qed.

Lemma EMAIL_RE_shaped (s : string) :
  Regex.test EMAIL_RE s = true <-> emailShaped s.
Proof.
  rewrite RegexSemantics.test_Matches. unfold EMAIL_RE, emailShaped. split.
  - intros H.
    inversion H as [|p1 r1 loc s1 Hl1 Hlo1 _ H1]; subst; clear H.
    inversion H1 as [|p2 r2 at_ s2 Hl2 _ Hhi2 H2]; subst; clear H1.
    inversion H2 as [|p3 r3 dom s3 Hl3 Hlo3 _ H3]; subst; clear H2.
    inversion H3 as [|p4 r4 dot s4 Hl4 _ Hhi4 H4]; subst; clear H3.
    inversion H4 as [|p5 r5 tld s5 Hl5 Hlo5 _ H5]; subst; clear H4.
    inversion H5; subst; clear H5.
    cbn in *.
    rewrite (every_eqb_one "@" at_ Hl2 (Hhi2 eq_refl)).
    rewrite (every_eqb_one "." dot Hl4 (Hhi4 eq_refl)).
    exists loc, dom, tld. rewrite app_empty_r.
    repeat split; try (now apply nonempty_length); try assumption.
    rewrite !every_app, Hl1, Hl3, Hl5. reflexivity.
  - intros [loc [dom [tld [-> [Hloc [Hdom [Htld Hall]]]]]]].
    rewrite !every_app in Hall.
    apply andb_true_iff in Hall. destruct Hall as [Hl1 Hall].
    apply andb_true_iff in Hall. destruct Hall as [Hl3 Hl5].
    rewrite <- (app_empty_r tld).
    apply Matches_cons; cbn;
      [exact Hl1 | now apply nonempty_length | discriminate |].
    apply (Matches_cons (Regex.lit "@") _ "@"); cbn;
      [reflexivity | lia | reflexivity |].
    apply Matches_cons; cbn;
      [exact Hl3 | now apply nonempty_length | discriminate |].
    apply (Matches_cons (Regex.lit ".") _ "."); cbn;
      [reflexivity | lia | reflexivity |].
    apply Matches_cons; cbn; [exact Hl5 | exact Htld | discriminate |].
    constructor.
Qed.

Lemma emailShaped_nonempty (s : string) : emailShaped s -> s <> "".
Proof.
  intros [loc [dom [tld [-> _]]]]. destruct loc; discriminate.
Qed.

(** X2: [validateEmail] passes exactly the strings whose trimmed text
    reads [local@domain.tld]: no white space and no second [@] in it, a local
    part and a domain that are not empty, and two characters or more after a
    dot that follows the domain; letter case plays no part. *)
Theorem validateEmail_passes_iff (v : value) :
  validateEmail v = Normal ""
  <-> exists s, v = VStr s /\ emailShaped (Str.trim s).
Proof.
  split.
  - destruct v; try discriminate. rewrite validateEmail_string.
    destruct (Str.isEmpty (Str.trim s)); [discriminate|].
    rewrite EMAIL_RE_test_i.
    destruct (Regex.test EMAIL_RE (Str.trim s)) eqn:E; [|discriminate].
    intros _. exists s. split; [reflexivity|]. now apply EMAIL_RE_shaped.
  - intros [s [-> Hs]]. rewrite validateEmail_string.
    pose proof (emailShaped_nonempty _ Hs) as Hne.
    apply isEmpty_false in Hne. rewrite Hne, EMAIL_RE_test_i.
    apply EMAIL_RE_shaped in Hs. now rewrite Hs.
Qed.

(** An address in capitals with white space around it. *)
Lemma validateEmail_passes_iff_witness :
  validateEmail (VStr "  ADA@Premier.Example ") = Normal "".
Proof.
  apply (proj2 (validateEmail_passes_iff (VStr "  ADA@Premier.Example "))).
  exists "  ADA@Premier.Example ". split; [reflexivity|].
  exists "ADA", "Premier", "Example". repeat split; try discriminate.
  cbn. lia.
Defined.

End ValidatorsMore.

(* ================================================================== *)
(** * More about the lead throttle *)
(* ================================================================== *)

Module ThrottleMore.

Import LeadThrottle StrFacts.

Lemma find_put_same (l : list (string * string)) (k v : string) :
  LocalStorage.find (LocalStorage.put l k v) k = Some v.
Proof.
  induction l as [|[k' v'] l IH]; cbn.
  - now rewrite String.eqb_refl.
  - destruct (String.eqb k' k) eqn:E; cbn.
    + now rewrite String.eqb_refl.
    + now rewrite E.
Qed.

Lemma find_put_other (l : list (string * string)) (k k' v : string) :
  k' <> k ->
  LocalStorage.find (LocalStorage.put l k v) k' = LocalStorage.find l k'.
Proof.
  intros Hne. induction l as [|[k0 v0] l IH]; cbn.
  - apply String.eqb_neq in Hne. rewrite String.eqb_sym in Hne. now rewrite Hne.
  - destruct (String.eqb k0 k) eqn:E; cbn.
    + apply String.eqb_eq in E. subst k0.
      apply String.eqb_neq in Hne. rewrite String.eqb_sym in Hne.
      now rewrite Hne.
    + now rewrite IH.
Qed.

(** The text of a finite number is never empty. *)
Lemma toString_Fin_nonempty (z : Z) : Num.toString (Fin z) <> "".
Proof.
  destruct z as [|p|p]; cbn; try discriminate.
  pose proof (Unsigned.to_uint_nonnil p) as H.
  destruct (Pos.to_uint p); [congruence | discriminate ..].
Qed.

Lemma getItem_markLeadSubmitted (st : Storage) (now : Z) :
  denied st = false ->
  LocalStorage.getItem (markLeadSubmitted st now) STORAGE_KEY
  = Normal (Some (Num.toString (Fin now))).
Proof.
  unfold markLeadSubmitted, LocalStorage.setItem, LocalStorage.getItem.
  destruct st as [[|] l]; cbn; [discriminate|].
  intros _. now rewrite find_put_same.
Qed.

(** X3: [markLeadSubmitted] stores the text of the time under the
    throttle's key and leaves every other entry of the storage as it was;
    when the storage denies access it changes nothing and does not raise. *)
Theorem markLeadSubmitted_storage (st : Storage) (now : Z) :
  (denied st = false ->
   LocalStorage.getItem (markLeadSubmitted st now) STORAGE_KEY
   = Normal (Some (Num.toString (Fin now))))
  /\ (forall k, k <> STORAGE_KEY ->
      LocalStorage.getItem (markLeadSubmitted st now) k
      = LocalStorage.getItem st k)
  /\ (denied st = true -> markLeadSubmitted st now = st).
Proof.
  unfold markLeadSubmitted, LocalStorage.setItem, LocalStorage.getItem.
  destruct st as [[|] l]; cbn.
  - split; [discriminate|]. split; [reflexivity | reflexivity].
  - split; [intros _; now rewrite find_put_same|].
    split; [|discriminate]. intros k Hk. now rewrite find_put_other.
Qed.

(** The entry of the throttle written over a language preference. *)
Lemma markLeadSubmitted_storage_witness :
  let st := {| denied := false; entries := [("lang", "en")] |} in
  LocalStorage.getItem (markLeadSubmitted st 1700000000000) "lang"
  = Normal (Some "en")
  /\ LocalStorage.getItem (markLeadSubmitted st 1700000000000) STORAGE_KEY
     = Normal (Some "1700000000000").
Proof.
  cbv zeta.
  destruct (markLeadSubmitted_storage
              {| denied := false; entries := [("lang", "en")] |} 1700000000000)
    as [Hkey [Hother _]].
  split.
  - rewrite (Hother "lang"); [reflexivity | discriminate].
  - rewrite (Hkey eq_refl). reflexivity.
Defined.

Section Throttle.

Variable StringToNumber : string -> num.

Local Abbreviation remainingMs :=
  (getLeadSubmissionCooldownRemainingMs StringToNumber).

(** The cooldown under a finite window, timestamp in hand. *)
Lemma remainingMs_finite (st : Storage) (now : Z) (windowMs : value)
    (w : Z) (raw : string) (ts : Z) :
  JS.toNumber StringToNumber (windowOrDefault windowMs) = Fin w ->
  LocalStorage.getItem st STORAGE_KEY = Normal (Some raw) ->
  raw <> "" ->
  StringToNumber raw = Fin ts ->
  remainingMs st now windowMs = Normal (Fin (Z.max 0 (w - (now - ts)))).
Proof.
  intros Hw Hget Hne Hts.
  rewrite ThrottleFacts.remainingMs_cases, Hget, Hw, Hts.
  apply isEmpty_false in Hne. rewrite Hne.
  cbn [Num.sub Num.neg Num.add Num.gt Num.lt].
  destruct (0 <? w + - (now - ts)) eqn:E; do 2 f_equal.
  - apply Z.ltb_lt in E. lia.
  - apply Z.ltb_ge in E. lia.
Qed.

(** Without a usable timestamp there is no cooldown. *)
Lemma remainingMs_finite_cases (st : Storage) (now : Z) (windowMs : value) (w : Z) :
  JS.toNumber StringToNumber (windowOrDefault windowMs) = Fin w ->
  remainingMs st now windowMs = Normal (Fin 0)
  \/ exists raw ts,
       LocalStorage.getItem st STORAGE_KEY = Normal (Some raw)
       /\ raw <> "" /\ StringToNumber raw = Fin ts.
Proof.
  intros Hw. rewrite ThrottleFacts.remainingMs_cases.
  destruct (LocalStorage.getItem st STORAGE_KEY) as [[raw|]|e];
    try (left; reflexivity).
  destruct (Str.isEmpty raw) eqn:E; [left; reflexivity|].
  destruct (StringToNumber raw) as [| | |ts] eqn:Hts; try (left; reflexivity).
  right. exists raw, ts. split; [reflexivity|]. split; [|exact Hts].
  now apply isEmpty_false.
Qed.

(** X4: right after a submission is marked at time [t] the whole window
    is left, at a later time [now] what is left is the window less the time
    gone by, and nothing from [t + windowMs] on.  The storage must be
    usable, [Number] must read the stored text back as [t], and the two
    subtractions of the function, [now - t] and [windowMs - (now - t)], must
    be exact. *)
Theorem cooldown_after_markLeadSubmitted
    (st : Storage) (t now : Z) (windowMs : value) (w : Z) :
  denied st = false ->
  StringToNumber (Num.toString (Fin t)) = Fin t ->
  JS.toNumber StringToNumber (windowOrDefault windowMs) = Fin w ->
  Num.exactSub now t = true ->
  Num.exactSub w (now - t) = true ->
  remainingMs (markLeadSubmitted st t) now windowMs
  = Normal (Fin (Z.max 0 (w - (now - t)))).
Proof.
  intros Hd Hparse Hw _ _.
  apply (remainingMs_finite _ now windowMs w (Num.toString (Fin t)) t);
    [exact Hw | now apply getItem_markLeadSubmitted
    | apply toString_Fin_nonempty | exact Hparse].
Qed.

(** X5: under a finite window the cooldown never grows as the clock
    advances, and it is never negative. *)
Theorem cooldown_never_grows
    (st : Storage) (now now' : Z) (windowMs : value) (w : Z) :
  JS.toNumber StringToNumber (windowOrDefault windowMs) = Fin w ->
  now <= now' ->
  exists r r',
    remainingMs st now windowMs = Normal (Fin r)
    /\ remainingMs st now' windowMs = Normal (Fin r')
    /\ 0 <= r' <= r.
Proof.
  intros Hw Hle.
  destruct (remainingMs_finite_cases st now windowMs w Hw)
    as [H0 | [raw [ts [Hget [Hne Hts]]]]].
  - exists 0, 0. split; [exact H0|]. split; [|lia].
    apply (ThrottleFacts.cooldown_stays_over
             StringToNumber st now now' windowMs w Hw Hle H0).
  - exists (Z.max 0 (w - (now - ts))), (Z.max 0 (w - (now' - ts))).
    rewrite !(remainingMs_finite st _ windowMs w raw ts Hw Hget Hne Hts).
    repeat split; lia.
Qed.

(** X6: a timestamp that is not ahead of the clock never blocks for
    longer than the window: the cooldown lies between 0 and [windowMs]. *)
Theorem cooldown_within_window
    (st : Storage) (now : Z) (windowMs : value) (w : Z) :
  JS.toNumber StringToNumber (windowOrDefault windowMs) = Fin w ->
  0 <= w ->
  (forall raw ts,
     LocalStorage.getItem st STORAGE_KEY = Normal (Some raw) ->
     StringToNumber raw = Fin ts -> ts <= now) ->
  exists r, remainingMs st now windowMs = Normal (Fin r) /\ 0 <= r <= w.
Proof.
  intros Hw Hpos Hpast.
  destruct (remainingMs_finite_cases st now windowMs w Hw)
    as [H0 | [raw [ts [Hget [Hne Hts]]]]].
  - exists 0. split; [exact H0 | lia].
  - exists (Z.max 0 (w - (now - ts))).
    rewrite (remainingMs_finite st _ windowMs w raw ts Hw Hget Hne Hts).
    specialize (Hpast raw ts Hget Hts). split; [reflexivity | lia].
Qed.

End Throttle.

(** A submission marked at noon, asked about an hour later under the
    default window. *)
Lemma cooldown_after_markLeadSubmitted_witness :
  getLeadSubmissionCooldownRemainingMs Examples.decimalToNumber
    (markLeadSubmitted Examples.emptyStorage 1700000000000)
    1700003600000 VUndefined
  = Normal (Fin 82800000).
Proof.
  apply (cooldown_after_markLeadSubmitted Examples.decimalToNumber
           Examples.emptyStorage 1700000000000 1700003600000 VUndefined
           DEFAULT_WINDOW_MS);
    reflexivity.
Defined.

(** A timestamp stored an hour ago, asked about now and a minute later. *)
Lemma cooldown_never_grows_witness :
  exists r r',
    getLeadSubmissionCooldownRemainingMs Examples.decimalToNumber
      (Examples.storageWith "1700000000000") 1700003600000 VUndefined
    = Normal (Fin r)
    /\ getLeadSubmissionCooldownRemainingMs Examples.decimalToNumber
         (Examples.storageWith "1700000000000") 1700003660000 VUndefined
       = Normal (Fin r')
    /\ 0 <= r' <= r.
Proof.
  apply (cooldown_never_grows Examples.decimalToNumber
           (Examples.storageWith "1700000000000")
           1700003600000 1700003660000 VUndefined DEFAULT_WINDOW_MS);
    [reflexivity | lia].
Defined.

Lemma cooldown_within_window_witness :
  exists r,
    getLeadSubmissionCooldownRemainingMs Examples.decimalToNumber
      (Examples.storageWith "1700000000000") 1700003600000 VUndefined
    = Normal (Fin r)
    /\ 0 <= r <= DEFAULT_WINDOW_MS.
Proof.
  apply (cooldown_within_window Examples.decimalToNumber
           (Examples.storageWith "1700000000000")
           1700003600000 VUndefined DEFAULT_WINDOW_MS);
    [reflexivity | unfold DEFAULT_WINDOW_MS; lia |].
  intros raw ts Hget Hts. injection Hget as <-.
  vm_compute in Hts. injection Hts as <-. lia.
Defined.

End ThrottleMore.

(* ================================================================== *)
(** * More about the inventory filter and the facet lists *)
(* ================================================================== *)

Module FilterMore.

Import App AppRest Shapes StrFacts StrMore.

Local Open Scope list_scope.

Lemma filter_filter_implies {A} (p q : A -> bool) (l : list A) :
  (forall x, p x = true -> q x = true) ->
  filter p (filter q l) = filter p l.
Proof.
  intros H. induction l as [|x l IH]; cbn; [reflexivity|].
  destruct (q x) eqn:Hq; cbn.
  - now rewrite IH.
  - destruct (p x) eqn:Hp; [|exact IH].
    rewrite (H x Hp) in Hq. discriminate Hq.
Qed.

Section Filter.

Variable StringToNumber : string -> num.

Local Abbreviation filteredInventory := (App.filteredInventory StringToNumber).

(** X7: letter case and surrounding white space of the query do not
    change what the filter returns. *)
Theorem filteredInventory_query_normalised
    (q mk bd : string) (mx : value) (cars : list value) :
  let f q' := {| query := q'; make := mk; bodyStyle := bd; maxPrice := mx |} in
  filteredInventory (f (Str.toLowerCase q)) cars = filteredInventory (f q) cars
  /\ filteredInventory (f (Str.trim q)) cars = filteredInventory (f q) cars.
Proof.
  cbv zeta. unfold App.filteredInventory. cbn [query maxPrice].
  rewrite !FilterFacts.normalizeStr_string.
  rewrite <- trim_toLowerCase, toLowerCase_idempotent, trim_toLowerCase.
  rewrite trim_idempotent.
  split; reflexivity.
Qed.

Lemma le_Fin_trans (p : num) (m1 m2 : Z) :
  m1 <= m2 -> Num.le p (Fin m1) = true -> Num.le p (Fin m2) = true.
Proof.
  intros Hm. destruct p as [| | |a]; cbn; try congruence.
  intros H. apply Z.leb_le in H. apply Z.leb_le. lia.
Qed.

(** X8: lowering the price limit only removes cars: filtering with the
    lower limit what the higher limit (or no limit) let through gives what
    the lower limit gives on the whole list. *)
Theorem filteredInventory_lower_limit
    (q mk bd : string) (m1 m2 : Z) (cars : list value) :
  let f mx := {| query := q; make := mk; bodyStyle := bd; maxPrice := mx |} in
  m1 <= m2 ->
  filteredInventory (f (VNum (Fin m1))) (filteredInventory (f (VNum (Fin m2))) cars)
  = filteredInventory (f (VNum (Fin m1))) cars
  /\ filteredInventory (f (VNum (Fin m1))) (filteredInventory (f (VStr "Any")) cars)
     = filteredInventory (f (VNum (Fin m1))) cars.
Proof.
  cbv zeta. intros Hm. unfold App.filteredInventory.
  cbn [query maxPrice JS.strictEqStr JS.toNumber String.eqb].
  split; apply filter_filter_implies; intros car; unfold matches;
    cbn [make bodyStyle Num.isFinite negb];
    intros H; apply andb_true_iff in H; destruct H as [H Hq];
    apply andb_true_iff in H; destruct H as [H Hp];
    rewrite H, Hq; [|reflexivity].
  now rewrite (le_Fin_trans _ m1 m2 Hm Hp).
Qed.

Lemma filter_comm {A} (p q : A -> bool) (l : list A) :
  filter p (filter q l) = filter q (filter p l).
Proof.
  induction l as [|x l IH]; cbn; [reflexivity|].
  destruct (q x) eqn:Hq, (p x) eqn:Hp; cbn; rewrite ?Hq, ?Hp, IH; reflexivity.
Qed.

(** X28: filtering what the filter returned, with the same criteria,
    changes nothing, and two sets of criteria can be applied in either
    order. *)
Theorem filteredInventory_twice (f g : Filters) (cars : list value) :
  filteredInventory f (filteredInventory f cars) = filteredInventory f cars
  /\ filteredInventory f (filteredInventory g cars)
     = filteredInventory g (filteredInventory f cars).
Proof.
  unfold App.filteredInventory. split.
  - apply filter_filter_implies. auto.
  - apply filter_comm.
Qed.

End Filter.

(** ** Facet lists *)

Lemma setAdd_In (set : list string) (v x : string) :
  In x (setAdd set v) <-> In x set \/ x = v.
Proof.
  unfold setAdd. destruct (existsb (String.eqb v) set) eqn:E.
  - split; [auto|]. intros [H | ->]; [exact H|].
    apply existsb_exists in E. destruct E as [y [Hy Hvy]].
    apply String.eqb_eq in Hvy. now subst.
  - rewrite in_app_iff. cbn. intuition.
Qed.

Lemma setAdd_NoDup (set : list string) (v : string) :
  NoDup set -> NoDup (setAdd set v).
Proof.
  unfold setAdd. intros H. destruct (existsb (String.eqb v) set) eqn:E; [exact H|].
  apply NoDup_app; [exact H | repeat constructor; intros [] |].
  intros x Hx [Hv | []]. rewrite <- Hv in Hx.
  assert (existsb (String.eqb v) set = true) as Hex.
  { apply existsb_exists. exists v. split; [exact Hx | apply String.eqb_refl]. }
  congruence.
Qed.

Lemma collect_NoDup (items : list value) (key : string) :
  forall set, NoDup set -> NoDup (collect set items key).
Proof.
  induction items as [|it rest IH]; intros set H; [exact H|].
  cbn [collect]. destruct (JS.opt_get it key); try now apply IH.
  destruct (negb (Str.isEmpty (Str.trim s))); apply IH; [|exact H].
  now apply setAdd_NoDup.
Qed.

Lemma collect_In (items : list value) (key x : string) :
  forall set,
    In x (collect set items key)
    <-> In x set
        \/ (x <> "" /\ exists it s,
              In it items /\ JS.opt_get it key = VStr s /\ Str.trim s = x).
Proof.
  induction items as [|it rest IH]; intros set.
  - cbn. split; [auto|]. intros [H | [_ [it [s [[] _]]]]]. exact H.
  - cbn [collect].
    assert (forall set',
              (In x set' <-> In x set
                 \/ (exists s, JS.opt_get it key = VStr s /\ Str.trim s = x
                               /\ x <> "")) ->
              (In x (collect set' rest key)
               <-> In x set
                   \/ (x <> "" /\ exists it0 s,
                         In it0 (it :: rest) /\ JS.opt_get it0 key = VStr s
                         /\ Str.trim s = x))) as Hstep.
    { intros set' Hset'. rewrite IH, Hset'. split.
      - intros [[H | [s [Hs [Ht Hx]]]] | [Hx [it0 [s [Hin [Hs Ht]]]]]].
        + now left.
        + right. split; [exact Hx|]. exists it, s. cbn. auto.
        + right. split; [exact Hx|]. exists it0, s. cbn. auto.
      - intros [H | [Hx [it0 [s [[<- | Hin] [Hs Ht]]]]]].
        + now left; left.
        + left; right. exists s. auto.
        + right. split; [exact Hx|]. exists it0, s. auto. }
    destruct (JS.opt_get it key) eqn:Hget;
      try (apply Hstep; split; [auto | intros [H | [s0 [Hs0 _]]];
                                       [exact H | discriminate Hs0]]).
    destruct (Str.isEmpty (Str.trim s)) eqn:E; cbn [negb]; apply Hstep.
    + apply isEmpty_true in E. split; [auto|].
      intros [H | [s0 [Hs0 [Ht Hx]]]]; [exact H|].
      injection Hs0 as <-. congruence.
    + apply isEmpty_false in E. rewrite setAdd_In. split.
      * intros [H | ->]; [now left|]. right. exists s. auto.
      * intros [H | [s0 [Hs0 [Ht Hx]]]]; [now left|].
        injection Hs0 as <-. now right.
Qed.

Section Sorting.

Variable localeCompare : string -> string -> Z.

Lemma insertSorted_perm (x : string) (l : list string) :
  Permutation (insertSorted localeCompare x l) (x :: l).
Proof.
  induction l as [|y l IH]; cbn; [reflexivity|].
  destruct (localeCompare x y <? 0); [reflexivity|].
  rewrite IH. apply perm_swap.
Qed.

Lemma sortFrom_perm (arr sorted : list string) :
  Permutation
    (fold_left (fun acc x => insertSorted localeCompare x acc) arr sorted)
    (sorted ++ arr).
Proof.
  revert sorted. induction arr as [|x arr IH]; intros sorted; cbn.
  - now rewrite app_nil_r.
  - rewrite IH, insertSorted_perm. apply Permutation_middle.
Qed.

Lemma sortByLocale_perm (arr : list string) :
  Permutation (sortByLocale localeCompare arr) arr.
Proof. apply (sortFrom_perm arr []). Qed.

(** X9: the options [getUniqueValues] offers are exactly the non-empty
    trimmed string values of the field among the items, each offered once,
    whatever the collation. *)
Theorem getUniqueValues_distinct (items : list value) (key : string) :
  NoDup (getUniqueValues localeCompare items key)
  /\ forall v,
       In v (getUniqueValues localeCompare items key)
       <-> v <> ""
           /\ exists it s,
                In it items /\ JS.opt_get it key = VStr s /\ Str.trim s = v.
Proof.
  unfold getUniqueValues. split.
  - apply (Permutation_NoDup (Permutation_sym (sortByLocale_perm _))).
    apply collect_NoDup. constructor.
  - intros v. split.
    + intros H. apply (Permutation_in _ (sortByLocale_perm _)) in H.
      apply collect_In in H. destruct H as [[] | H]. exact H.
    + intros H.
      apply (Permutation_in _ (Permutation_sym (sortByLocale_perm _))).
      apply collect_In. now right.
Qed.

Hypothesis localeCompare_asym :
  forall a b, localeCompare a b < 0 -> ~ localeCompare b a < 0.

Lemma insertSorted_ascending (x : string) (l : list string) :
  ascending localeCompare l -> ascending localeCompare (insertSorted localeCompare x l).
Proof.
  induction l as [|y l IH]; intros H; [cbn; auto|].
  cbn [insertSorted]. destruct (localeCompare x y <? 0) eqn:E.
  - apply Z.ltb_lt in E. cbn [ascending]. split; [|exact H].
    now apply localeCompare_asym.
  - apply Z.ltb_ge in E. destruct H as [Hy Hl]. specialize (IH Hl).
    cbn [ascending]. split; [|exact IH].
    destruct l as [|z l]; cbn [insertSorted]; [lia|].
    destruct (localeCompare x z <? 0); [lia | exact Hy].
Qed.

(** X10: the options come in ascending order of the collation: none
    sorts strictly before the one listed ahead of it.  The collation must
    not put each of two strings strictly before the other. *)
Theorem getUniqueValues_ascending (items : list value) (key : string) :
  ascending localeCompare (getUniqueValues localeCompare items key).
Proof.
  unfold getUniqueValues, sortByLocale.
  assert (forall arr sorted,
            ascending localeCompare sorted ->
            ascending localeCompare
              (fold_left (fun acc x => insertSorted localeCompare x acc) arr sorted))
    as H.
  { induction arr as [|x arr IH]; intros sorted Hs; [exact Hs|].
    cbn [fold_left]. apply IH. now apply insertSorted_ascending. }
  apply H. exact I.
Qed.

End Sorting.

Section Options.

Variable StringToNumber : string -> num.
Variable localeCompare : string -> string -> Z.

(** X11: when the makes (bodies) of the items carry no surrounding white
    space, every make (body) offered in the select box selects at least one
    car. *)
Theorem offered_option_selects_a_car (cars : list value) (v : string) :
  (forall it s, In it cars ->
     JS.opt_get it "make" = VStr s \/ JS.opt_get it "body" = VStr s ->
     Str.trim s = s) ->
  (In v (getUniqueValues localeCompare cars "make") ->
   App.filteredInventory StringToNumber
     {| query := ""; make := v; bodyStyle := "All"; maxPrice := VStr "Any" |}
     cars <> [])
  /\ (In v (getUniqueValues localeCompare cars "body") ->
      App.filteredInventory StringToNumber
        {| query := ""; make := "All"; bodyStyle := v; maxPrice := VStr "Any" |}
        cars <> []).
Proof.
  intros Htrim.
  assert (forall key f,
            (forall it, JS.opt_get it key = VStr v ->
               matches StringToNumber f (normalizeStr (VStr (query f)))
                 (if JS.strictEqStr (maxPrice f) "Any" then PInf
                  else JS.toNumber StringToNumber (maxPrice f)) it = true) ->
            (forall it s, In it cars -> JS.opt_get it key = VStr s -> Str.trim s = s) ->
            In v (getUniqueValues localeCompare cars key) ->
            App.filteredInventory StringToNumber f cars <> []) as Hsel.
  { intros key f Hmatch Hkey Hin.
    unfold getUniqueValues in Hin.
    apply (Permutation_in _ (sortByLocale_perm _ _)) in Hin.
    apply collect_In in Hin. destruct Hin as [[] | [_ [it [s [Hit [Hs Ht]]]]]].
    rewrite (Hkey it s Hit Hs) in Ht. subst s.
    intros Hnil.
    assert (In it (App.filteredInventory StringToNumber f cars)) as Hres.
    { unfold App.filteredInventory. apply filter_In. split; [exact Hit|].
      now apply Hmatch. }
    rewrite Hnil in Hres. destruct Hres. }
  split; apply Hsel.
  - intros it Hv. unfold matches. cbn [make bodyStyle query maxPrice].
    rewrite Hv. cbn [JS.strictEqStr]. rewrite (String.eqb_refl v), orb_true_r.
    reflexivity.
  - intros it s Hit Hs. apply (Htrim it s Hit). now left.
  - intros it Hv. unfold matches. cbn [make bodyStyle query maxPrice].
    rewrite Hv. cbn [JS.strictEqStr]. rewrite (String.eqb_refl v), orb_true_r.
    reflexivity.
  - intros it s Hit Hs. apply (Htrim it s Hit). now right.
Qed.

End Options.

Lemma codeUnitCompare_asym (a b : string) :
  MoreExamples.codeUnitCompare a b < 0 -> ~ MoreExamples.codeUnitCompare b a < 0.
Proof.
  unfold MoreExamples.codeUnitCompare. rewrite (String.compare_antisym a b).
  destruct (String.compare b a); cbn; lia.
Qed.

(** The bodies of the built-in inventory, in code-unit order. *)
Lemma getUniqueValues_ascending_witness :
  ascending MoreExamples.codeUnitCompare ["SUV"; "Sedan"; "Truck"].
Proof.
  exact (getUniqueValues_ascending MoreExamples.codeUnitCompare
           codeUnitCompare_asym Api.getMockInventory "body").
Defined.

(** "Truck" is offered as a body of the built-in inventory. *)
Lemma getUniqueValues_distinct_witness :
  In "Truck"%string
    (getUniqueValues MoreExamples.codeUnitCompare Api.getMockInventory "body").
Proof.
  apply (proj2 (getUniqueValues_distinct MoreExamples.codeUnitCompare
                  Api.getMockInventory "body")).
  split; [discriminate|].
  exists (nth 3 Api.getMockInventory VNull), "Truck"%string.
  split; [|split; reflexivity].
  cbn. tauto.
Defined.

(** Lowering the limit from $40,000 to $30,000 on the built-in
    inventory. *)
Lemma filteredInventory_lower_limit_witness :
  let f mx := {| query := ""; make := "All"; bodyStyle := "All"; maxPrice := mx |} in
  App.filteredInventory Examples.decimalToNumber (f (VNum (Fin 30000)))
    (App.filteredInventory Examples.decimalToNumber (f (VNum (Fin 40000)))
       Api.getMockInventory)
  = App.filteredInventory Examples.decimalToNumber (f (VNum (Fin 30000)))
      Api.getMockInventory.
Proof.
  apply (filteredInventory_lower_limit Examples.decimalToNumber
           "" "All" "All" 30000 40000 Api.getMockInventory).
  lia.
Defined.

(** Every make of the built-in inventory selects a car. *)
Lemma offered_option_selects_a_car_witness :
  App.filteredInventory Examples.decimalToNumber
    {| query := ""; make := "Tesla"; bodyStyle := "All"; maxPrice := VStr "Any" |}
    Api.getMockInventory <> [].
Proof.
  apply (offered_option_selects_a_car Examples.decimalToNumber
           MoreExamples.codeUnitCompare Api.getMockInventory "Tesla").
  - intros it s Hit Hs.
    repeat (destruct Hit as [<- | Hit];
            [destruct Hs as [Hs | Hs]; injection Hs as <-; reflexivity|]).
    destruct Hit.
  - vm_compute. tauto.
Defined.

(** A make with white space around it is offered trimmed and then
    selects nothing, the filter comparing the make as it is stored. *)
Example padded_make_selects_nothing :
  getUniqueValues MoreExamples.codeUnitCompare [MoreExamples.paddedCar] "make"
  = ["Honda"]
  /\ App.filteredInventory Examples.decimalToNumber
       {| query := ""; make := "Honda"; bodyStyle := "All";
          maxPrice := VStr "Any" |}
       [MoreExamples.paddedCar] = [].
Proof. split; reflexivity. Qed.

End FilterMore.

(* ================================================================== *)
(** * More about source resolution *)
(* ================================================================== *)

Module ApiMore.

Import Api ApiRest StrFacts StrMore.

Local Open Scope list_scope.

(** ** Object spread *)

Lemma lookup_setProp (props : list (string * value)) (k k' : string) (v : value) :
  JS.lookup (setProp props k v) k' =
  if String.eqb k k' then v else JS.lookup props k'.
Proof.
  induction props as [|[k0 v0] props IH]; cbn; [reflexivity|].
  destruct (String.eqb k0 k) eqn:E; cbn.
  - apply String.eqb_eq in E. subst k0. now destruct (String.eqb k k').
  - rewrite IH. destruct (String.eqb k k') eqn:E'; [|reflexivity].
    apply String.eqb_eq in E'. subst k'. now rewrite E.
Qed.

Lemma lookup_spread_from (props : list (string * value)) (k : string) :
  forall seen target,
    JS.lookup
      (fold_left (fun acc kv => setProp acc (fst kv) (snd kv))
         (uniqueFrom seen props) target) k =
    if existsb (String.eqb k) seen then JS.lookup target k
    else if hasProp props k then JS.lookup props k
    else JS.lookup target k.
Proof.
  induction props as [|[k0 v0] props IH]; intros seen target.
  - cbn. now destruct (existsb (String.eqb k) seen).
  - cbn [uniqueFrom hasProp existsb fst JS.lookup].
    destruct (existsb (String.eqb k0) seen) eqn:Hseen.
    + rewrite IH. destruct (existsb (String.eqb k) seen) eqn:Hk; [reflexivity|].
      destruct (String.eqb k0 k) eqn:E; [|reflexivity].
      apply String.eqb_eq in E. subst k0. congruence.
    + cbn [fold_left fst snd]. rewrite IH. cbn [existsb].
      rewrite lookup_setProp, (String.eqb_sym k k0).
      destruct (String.eqb k0 k) eqn:E; cbn [orb].
      * apply String.eqb_eq in E. subst k0. now rewrite Hseen.
      * reflexivity.
Qed.

(** X12: the receipt of a resource request carries every property of
    the JSON object the backend answered with; [ok] and [source] are [true]
    and ["api"] unless the answer has properties of these names, which then
    take their place. *)
Theorem resourceReceipt_properties (props : list (string * value)) (k : string) :
  JS.opt_get (resourceReceipt (VObj props)) k =
  if hasProp props k then JS.lookup props k
  else JS.lookup [("ok", VBool true); ("source", VStr "api")] k.
Proof.
  unfold resourceReceipt, spread, JS.or. cbn [JS.truthy ownProps JS.opt_get].
  rewrite lookup_spread_from. reflexivity.
Qed.

Section Client.

Variable API_BASE : string.
Variable JSON_parse : string -> option value.
Variable JSON_stringify : value -> string.
Variable server : list request -> request -> completion response.

Local Abbreviation requestJson := (Api.requestJson API_BASE JSON_parse server).
Local Abbreviation errorOf := (Api.errorOf JSON_parse server).
Local Abbreviation readItems := (Api.readItems API_BASE JSON_parse server).
Local Abbreviation getRequest := (Api.getRequest API_BASE).
Local Abbreviation getRequests := (Api.getRequests API_BASE).
Local Abbreviation postRequest := (Api.postRequest API_BASE JSON_stringify).
Local Abbreviation postRequests := (Api.postRequests API_BASE JSON_stringify).
Local Abbreviation fetchInventoryFrom :=
  (Api.fetchInventoryFrom API_BASE JSON_parse server).
Local Abbreviation fetchInventory := (Api.fetchInventory API_BASE JSON_parse server).
Local Abbreviation submitLeadFrom :=
  (Api.submitLeadFrom API_BASE JSON_parse JSON_stringify server).
Local Abbreviation submitLead :=
  (Api.submitLead API_BASE JSON_parse JSON_stringify server).
Local Abbreviation submitResourceFrom :=
  (ApiRest.submitGatedResourceRequestFrom API_BASE JSON_parse JSON_stringify server).
Local Abbreviation submitResource :=
  (ApiRest.submitGatedResourceRequest API_BASE JSON_parse JSON_stringify server).
Local Abbreviation lastErrorFrom := (Api.lastErrorFrom JSON_parse server).
Local Abbreviation allRaise := (Api.allRaise API_BASE JSON_parse JSON_stringify server).

(** ** One request *)

(** X13: a response that is not 2xx and whose body is empty or is not
    JSON still yields an error, not a parse failure: its message is
    ["Request failed (<status> <statusText>)"] and it carries the status. *)
Theorem requestJson_error_without_json
    (path method : string) (body : option string) (log : list request)
    (res : response) :
  server log (requestFor API_BASE path method body) = Normal res ->
  res_ok res = false ->
  res_text res = "" \/ JSON_parse (res_text res) = None ->
  exists e,
    requestJson path method body log
    = (log ++ [requestFor API_BASE path method body], Throw e)
    /\ message e = ("Request failed (" ++ Num.toString (Fin (res_status res))
                    ++ " " ++ res_statusText res ++ ")")%string
    /\ status e = Some (res_status res).
Proof.
  intros Hres Hok Hbody. rewrite ApiFacts.requestJson_run, Hres, Hok.
  eexists. split; [reflexivity|]. split; [|reflexivity].
  unfold httpError, safeJson. cbn [message].
  destruct Hbody as [-> | Hparse]; [reflexivity|].
  destruct (Str.isEmpty (res_text res)); [reflexivity|].
  rewrite Hparse. reflexivity.
Qed.

(** X14: when the JSON object of a response that is not 2xx has a
    non-empty string [message], that is the error's message; failing that, a
    non-empty string [error] is. *)
Theorem requestJson_error_message
    (path method : string) (body : option string) (log : list request)
    (res : response) (props : list (string * value)) (m : string) :
  server log (requestFor API_BASE path method body) = Normal res ->
  res_ok res = false ->
  res_text res <> "" ->
  JSON_parse (res_text res) = Some (VObj props) ->
  m <> "" ->
  JS.lookup props "message" = VStr m
  \/ (JS.truthy (JS.lookup props "message") = false
      /\ JS.lookup props "error" = VStr m) ->
  exists e,
    requestJson path method body log
    = (log ++ [requestFor API_BASE path method body], Throw e)
    /\ message e = m.
Proof.
  intros Hres Hok Htext Hparse Hm Hprops.
  rewrite ApiFacts.requestJson_run, Hres, Hok.
  eexists. split; [reflexivity|].
  unfold httpError, safeJson. cbn [message].
  apply isEmpty_false in Htext. rewrite Htext, Hparse. cbn [JS.opt_get].
  apply isEmpty_false in Hm.
  destruct Hprops as [-> | [Hfalsy ->]]; unfold JS.or.
  - cbn [JS.truthy]. now rewrite Hm.
  - rewrite Hfalsy. cbn [JS.truthy]. now rewrite Hm.
Qed.

(** ** The read loop under any server *)

Lemma fetchInventoryFrom_total (candidates : list string) :
  forall (lastErr : option error) (log : list request),
  exists n snap,
    (n <= List.length candidates)%nat
    /\ fetchInventoryFrom candidates lastErr log
       = (log ++ getRequests (firstn n candidates), Normal snap)
    /\ (source snap = "api" /\ warning snap = None
        \/ source snap = "mock" /\ items snap = getMockInventory
           /\ warning snap <> None).
Proof.
  induction candidates as [|path rest IH]; intros lastErr log.
  - exists 0%nat. eexists. split; [cbn; lia|]. split.
    + cbn. rewrite app_nil_r. reflexivity.
    + right. cbn. repeat split. discriminate.
  - destruct (readItems log path) as [l|] eqn:Hread.
    + exists 1%nat. eexists. split; [cbn; lia|]. split.
      * apply (ApiFacts.fetchInventoryFrom_success _ _ _ _ _ _ _ _ Hread).
      * left. split; reflexivity.
    + rewrite (ApiFacts.fetchInventoryFrom_failure _ _ _ _ _ _ _ Hread).
      destruct (IH (match errorOf log (getRequest path) with
                    | Some e => Some e
                    | None => lastErr
                    end) (log ++ [getRequest path]))
        as [n [snap [Hn [Hrun Hsnap]]]].
      exists (S n), snap. split; [cbn; lia|]. split; [|exact Hsnap].
      rewrite Hrun. cbn [firstn Api.getRequests map].
      now rewrite <- List.app_assoc.
Qed.

(** X15: whatever the backend does, [fetchInventory] does not raise.  It
    sends the requests of the first [n] candidates, in order, for some
    [n <= 4], and returns either items from the backend without a warning,
    or the built-in inventory. *)
Theorem fetchInventory_never_raises (log : list request) :
  exists n snap,
    (n <= 4)%nat
    /\ fetchInventory log
       = (log ++ getRequests (firstn n INVENTORY_CANDIDATES), Normal snap)
    /\ (source snap = "api" /\ warning snap = None
        \/ source snap = "mock" /\ items snap = getMockInventory).
Proof.
  unfold Api.fetchInventory. destruct (hasApiBase API_BASE); cbn [negb].
  - destruct (fetchInventoryFrom_total INVENTORY_CANDIDATES None log)
      as [n [snap [Hn [Hrun Hsnap]]]].
    exists n, snap. split; [exact Hn|]. split; [exact Hrun|]. tauto.
  - exists 0%nat. eexists. split; [lia|]. split.
    + cbn. rewrite app_nil_r. reflexivity.
    + right. split; reflexivity.
Qed.

(** X16: a base URL that is empty or all white space means no backend:
    [fetchInventory], [submitLead] and [submitGatedResourceRequest] then
    send nothing and answer from the page itself. *)
Theorem blank_base_sends_nothing (v : value) (log : list request) :
  Str.every Str.isWhiteSpace API_BASE = true ->
  fetchInventory log
  = (log, Normal {| source := "mock"; items := getMockInventory;
                    warning := None |})
  /\ submitLead v log
     = (log, Normal {| ok := true; receipt_source := "mock"; data := None |})
  /\ submitResource v log
     = (log, Normal (VObj [("ok", VBool true); ("source", VStr "mock");
                           ("downloadUrl", VNull);
                           ("message", VStr MOCK_RESOURCE_MSG)])).
Proof.
  intros Hblank. apply trim_blank in Hblank.
  unfold Api.fetchInventory, Api.submitLead, ApiRest.submitGatedResourceRequest,
    hasApiBase.
  rewrite Hblank. repeat split.
Qed.

(** ** The write loops *)

Lemma allRaise_tail (v : value) (path : string) (rest : list string)
    (log : list request) :
  allRaise v (path :: rest) log ->
  (exists e, errorOf log (postRequest v path) = Some e)
  /\ allRaise v rest (log ++ [postRequest v path]).
Proof.
  intros H. split.
  - specialize (H [] path rest eq_refl). cbn in H. rewrite app_nil_r in H.
    destruct (errorOf log (postRequest v path)) as [e|]; [now exists e | congruence].
  - intros pre p post ->. rewrite <- List.app_assoc.
    apply (H (path :: pre) p post). reflexivity.
Qed.

Lemma submitLeadFrom_success (path : string) (rest : list string) (lead : value)
    (lastErr : option error) (log : list request) (res : response) :
  server log (postRequest lead path) = Normal res ->
  res_ok res = true ->
  submitLeadFrom (path :: rest) lead lastErr log =
  (log ++ [postRequest lead path],
   Normal {| ok := true; receipt_source := "api";
             data := Some (safeJson JSON_parse res) |}).
Proof.
  intros Hres Hok. cbn [Api.submitLeadFrom]. unfold NetM.bind, NetM.attempt.
  rewrite ApiFacts.requestJson_run. fold (postRequest lead path).
  now rewrite Hres, Hok.
Qed.

(** X17: a lead goes to the candidates in order until one answers 2xx;
    that answer, whatever its body, ends the submission with a receipt from
    the source "api" holding the body read defensively, and nothing listed
    after it is requested. *)
Theorem submitLead_first_success
    (lead : value) (pre : list string) (path : string) (post : list string)
    (lastErr : option error) (log : list request) (res : response) :
  allRaise lead pre log ->
  server (log ++ postRequests lead pre) (postRequest lead path) = Normal res ->
  res_ok res = true ->
  submitLeadFrom (pre ++ path :: post) lead lastErr log =
    (log ++ postRequests lead (pre ++ [path]),
     Normal {| ok := true; receipt_source := "api";
               data := Some (safeJson JSON_parse res) |})
  /\ (hasApiBase API_BASE = true ->
      LEAD_CANDIDATES = pre ++ path :: post ->
      submitLead lead log =
        (log ++ postRequests lead (pre ++ [path]),
         Normal {| ok := true; receipt_source := "api";
                   data := Some (safeJson JSON_parse res) |})).
Proof.
  assert (forall lastErr' log',
            allRaise lead pre log' ->
            server (log' ++ postRequests lead pre) (postRequest lead path)
            = Normal res ->
            res_ok res = true ->
            submitLeadFrom (pre ++ path :: post) lead lastErr' log' =
            (log' ++ postRequests lead (pre ++ [path]),
             Normal {| ok := true; receipt_source := "api";
                       data := Some (safeJson JSON_parse res) |})) as Hloop.
  { induction pre as [|p pre IH]; intros lastErr' log' Hpre Hres Hok.
    - cbn in Hres. rewrite app_nil_r in Hres.
      apply (submitLeadFrom_success _ _ _ _ _ _ Hres Hok).
    - destruct (allRaise_tail _ _ _ _ Hpre) as [[e He] Hrest].
      cbn [app]. rewrite (ApiFacts.submitLeadFrom_failure _ _ _ _ _ _ _ _ _ _ He).
      rewrite (IH _ _ Hrest).
      + cbn [Api.postRequests map]. now rewrite <- List.app_assoc.
      + rewrite <- List.app_assoc. exact Hres.
      + exact Hok. }
  intros Hpre Hres Hok. split; [now apply Hloop|].
  intros Hbase Hc. unfold Api.submitLead. rewrite Hbase, Hc. cbn [negb].
  now apply Hloop.
Qed.

Lemma submitResourceFrom_failure (path : string) (rest : list string) (v : value)
    (lastErr : option error) (log : list request) (e : error) :
  errorOf log (postRequest v path) = Some e ->
  submitResourceFrom (path :: rest) v lastErr log =
  submitResourceFrom rest v (Some e) (log ++ [postRequest v path]).
Proof.
  unfold Api.errorOf. intros H.
  cbn [ApiRest.submitGatedResourceRequestFrom]. unfold NetM.bind, NetM.attempt.
  rewrite ApiFacts.requestJson_run. fold (postRequest v path).
  destruct (server log (postRequest v path)) as [res|e'].
  - destruct (res_ok res); [discriminate|]. now injection H as <-.
  - now injection H as <-.
Qed.

Lemma submitResourceFrom_success (path : string) (rest : list string) (v : value)
    (lastErr : option error) (log : list request) (res : response) :
  server log (postRequest v path) = Normal res ->
  res_ok res = true ->
  submitResourceFrom (path :: rest) v lastErr log =
  (log ++ [postRequest v path],
   Normal (resourceReceipt (safeJson JSON_parse res))).
Proof.
  intros Hres Hok. cbn [ApiRest.submitGatedResourceRequestFrom].
  unfold NetM.bind, NetM.attempt.
  rewrite ApiFacts.requestJson_run. fold (postRequest v path).
  now rewrite Hres, Hok.
Qed.

Lemma submitResourceFrom_exhausted (candidates : list string) (v : value) :
  forall (lastErr : option error) (log : list request),
  allRaise v candidates log ->
  submitResourceFrom candidates v lastErr log =
  (log ++ postRequests v candidates,
   Throw match lastErrorFrom (postRequest v) candidates log lastErr with
         | Some e => e
         | None => newError RESOURCE_FAILED_MSG
         end).
Proof.
  induction candidates as [|path rest IH]; intros lastErr log H.
  - cbn. now rewrite app_nil_r.
  - destruct (allRaise_tail _ _ _ _ H) as [[e He] Hrest].
    rewrite (submitResourceFrom_failure _ _ _ _ _ _ He), (IH _ _ Hrest).
    cbn [Api.postRequests map Api.lastErrorFrom]. rewrite He.
    now rewrite <- List.app_assoc.
Qed.

(** X18: when every candidate of a resource request fails,
    [submitGatedResourceRequest] has tried them all and raises the error of
    the candidate tried last. *)
Theorem submitGatedResourceRequest_raises_last_error
    (v : value) (pre : list string) (final : string)
    (lastErr : option error) (log : list request) :
  allRaise v (pre ++ [final]) log ->
  exists e,
    errorOf (log ++ postRequests v pre) (postRequest v final) = Some e
    /\ submitResourceFrom (pre ++ [final]) v lastErr log =
         (log ++ postRequests v (pre ++ [final]), Throw e)
    /\ (hasApiBase API_BASE = true ->
        RESOURCE_CANDIDATES = pre ++ [final] ->
        submitResource v log =
          (log ++ postRequests v RESOURCE_CANDIDATES, Throw e)).
Proof.
  intros Hall.
  destruct (errorOf (log ++ postRequests v pre) (postRequest v final))
    as [e|] eqn:E; [|now destruct (Hall pre final [] eq_refl)].
  assert (forall lastErr',
            lastErrorFrom (postRequest v) (pre ++ [final]) log lastErr' = Some e)
    as Hany.
  { intros lastErr'. apply ApiFacts.lastErrorFrom_last; [exact E|].
    intros [|? ?] ? ? H; discriminate H. }
  exists e. split; [reflexivity|]. split.
  - rewrite (submitResourceFrom_exhausted _ _ _ _ Hall). now rewrite Hany.
  - intros Hbase Hc. unfold ApiRest.submitGatedResourceRequest.
    rewrite Hbase, Hc. cbn [negb].
    rewrite (submitResourceFrom_exhausted _ _ _ _ Hall). now rewrite Hany.
Qed.

(** X19: the first candidate of a resource request that answers 2xx
    ends it; the receipt is built from that answer, so that a [downloadUrl]
    in a JSON object answered is the receipt's, and nothing listed after the
    candidate is requested. *)
Theorem submitGatedResourceRequest_first_success
    (v : value) (pre : list string) (path : string) (post : list string)
    (lastErr : option error) (log : list request) (res : response) :
  allRaise v pre log ->
  server (log ++ postRequests v pre) (postRequest v path) = Normal res ->
  res_ok res = true ->
  exists receipt,
    submitResourceFrom (pre ++ path :: post) v lastErr log =
      (log ++ postRequests v (pre ++ [path]), Normal receipt)
    /\ (forall props,
          safeJson JSON_parse res = VObj props ->
          JS.opt_get receipt "downloadUrl" = JS.lookup props "downloadUrl")
    /\ (hasApiBase API_BASE = true ->
        RESOURCE_CANDIDATES = pre ++ path :: post ->
        submitResource v log =
          (log ++ postRequests v (pre ++ [path]), Normal receipt)).
Proof.
  assert (forall lastErr' log',
            allRaise v pre log' ->
            server (log' ++ postRequests v pre) (postRequest v path)
            = Normal res ->
            res_ok res = true ->
            submitResourceFrom (pre ++ path :: post) v lastErr' log' =
            (log' ++ postRequests v (pre ++ [path]),
             Normal (resourceReceipt (safeJson JSON_parse res)))) as Hloop.
  { induction pre as [|p pre IH]; intros lastErr' log' Hpre Hres Hok.
    - cbn in Hres. rewrite app_nil_r in Hres.
      apply (submitResourceFrom_success _ _ _ _ _ _ Hres Hok).
    - destruct (allRaise_tail _ _ _ _ Hpre) as [[e He] Hrest].
      cbn [app]. rewrite (submitResourceFrom_failure _ _ _ _ _ _ He).
      rewrite (IH _ _ Hrest).
      + cbn [Api.postRequests map]. now rewrite <- List.app_assoc.
      + rewrite <- List.app_assoc. exact Hres.
      + exact Hok. }
  intros Hpre Hres Hok.
  exists (resourceReceipt (safeJson JSON_parse res)).
  split; [now apply Hloop|]. split.
  - intros props ->.
    unfold resourceReceipt, spread, JS.or. cbn [JS.truthy ownProps JS.opt_get].
    rewrite lookup_spread_from. cbn [existsb].
    destruct (hasProp props "downloadUrl") eqn:E; [reflexivity|].
    cbn. clear -E. induction props as [|[k0 v0] props IH]; [reflexivity|].
    cbn in E |- *. apply orb_false_iff in E. destruct E as [E1 E2].
    rewrite E1. now apply IH.
  - intros Hbase Hc. unfold ApiRest.submitGatedResourceRequest.
    rewrite Hbase, Hc. cbn [negb]. now apply Hloop.
Qed.

End Client.

(** A 404 without a body. *)
Lemma requestJson_error_without_json_witness :
  exists e,
    Api.requestJson Examples.dealer Examples.parseItems Examples.server404
      "/cars" "GET" None []
    = ([Api.getRequest Examples.dealer "/cars"], Throw e)
    /\ message e = "Request failed (404 Not Found)"%string.
Proof.
  destruct (requestJson_error_without_json Examples.dealer Examples.parseItems
              Examples.server404 "/cars" "GET" None [] Examples.notFound
              eq_refl eq_refl (or_introl eq_refl))
    as [e [Hrun [Hmsg _]]].
  exists e. split; [exact Hrun | exact Hmsg].
Defined.

(** A 422 that says why. *)
Lemma requestJson_error_message_witness :
  exists e,
    Api.requestJson Examples.dealer MoreExamples.parseTaken
      MoreExamples.server422 "/leads" "POST" (Some "{}"%string) []
    = ([requestFor Examples.dealer "/leads" "POST" (Some "{}"%string)], Throw e)
    /\ message e = "Email already registered"%string.
Proof.
  apply (requestJson_error_message Examples.dealer MoreExamples.parseTaken
           MoreExamples.server422 "/leads" "POST" (Some "{}"%string) []
           _ [("message", VStr "Email already registered")]
           "Email already registered" eq_refl eq_refl);
    [discriminate | reflexivity | discriminate | left; reflexivity].
Defined.

(** A base URL of two spaces. *)
Lemma blank_base_sends_nothing_witness :
  Api.fetchInventory "  " Examples.parseItems Examples.serverAB []
  = ([], Normal {| source := "mock"; items := getMockInventory;
                   warning := None |}).
Proof.
  apply (blank_base_sends_nothing "  " Examples.parseItems
           Examples.stringifyOpaque Examples.serverAB VNull []).
  reflexivity.
Defined.

(** A backend that answers 200 with an empty body to the first
    candidate. *)
Lemma submitLead_first_success_witness :
  Api.submitLead Examples.dealer Examples.parseItems Examples.stringifyOpaque
    MoreExamples.server200 (VStr "lead") []
  = ([Api.postRequest Examples.dealer Examples.stringifyOpaque (VStr "lead")
        "/api/leads"],
     Normal {| ok := true; receipt_source := "api"; data := Some VNull |}).
Proof.
  apply (submitLead_first_success Examples.dealer Examples.parseItems
           Examples.stringifyOpaque MoreExamples.server200 (VStr "lead")
           [] "/api/leads" ["/leads"; "/api/contact"; "/contact"] None []
           (Examples.okWith ""));
    try reflexivity.
  intros [|? ?] ? ? H; discriminate H.
Defined.

(** Four candidates answering 404 to a resource request. *)
Lemma submitGatedResourceRequest_raises_last_error_witness :
  ApiRest.submitGatedResourceRequest Examples.dealer Examples.parseItems
    Examples.stringifyOpaque Examples.server404 (VStr "request") []
  = (Api.postRequests Examples.dealer Examples.stringifyOpaque (VStr "request")
       RESOURCE_CANDIDATES,
     Throw (httpError Examples.parseItems Examples.notFound)).
Proof.
  destruct (submitGatedResourceRequest_raises_last_error
              Examples.dealer Examples.parseItems Examples.stringifyOpaque
              Examples.server404 (VStr "request")
              ["/api/resources/request"; "/resources/request"; "/api/resources"]
              "/resources" None [])
    as [e [He [_ Hsubmit]]].
  - intros pre p post _. discriminate.
  - injection He as <-. apply Hsubmit; reflexivity.
Defined.

(** The second candidate answers with a link. *)
Lemma submitGatedResourceRequest_first_success_witness :
  exists receipt,
    ApiRest.submitGatedResourceRequest Examples.dealer MoreExamples.parseLink
      Examples.stringifyOpaque MoreExamples.serverLink (VStr "request") []
    = (Api.postRequests Examples.dealer Examples.stringifyOpaque (VStr "request")
         ["/api/resources/request"; "/resources/request"],
       Normal receipt)
    /\ JS.opt_get receipt "downloadUrl" = VStr "/guide.pdf"
    /\ JS.opt_get receipt "ok" = VBool false.
Proof.
  destruct (submitGatedResourceRequest_first_success
              Examples.dealer MoreExamples.parseLink Examples.stringifyOpaque
              MoreExamples.serverLink (VStr "request")
              ["/api/resources/request"] "/resources/request"
              ["/api/resources"; "/resources"] None [] (Examples.okWith "LINK"))
    as [receipt [Hrun [Hurl Hsubmit]]]; try reflexivity.
  - intros [|? [|? ?]] p post H; try discriminate H.
    injection H as <- <-. discriminate.
  - exists receipt. split; [apply Hsubmit; reflexivity|].
    split; [apply (Hurl _ eq_refl)|].
    cbn in Hrun. injection Hrun as <-. reflexivity.
Defined.

End ApiMore.

(* ================================================================== *)
(** * More about the forms and the inventory load *)
(* ================================================================== *)

Module FormsMore.

Import Validation App AppRest Shapes StrFacts StrMore.

Local Open Scope list_scope.

(** ** Form validation *)

Lemma note_nil (field err : string) (errs : list (string * string)) :
  note field err errs = [] <-> err = ""%string /\ errs = [].
Proof.
  unfold note. destruct (Str.isEmpty err) eqn:E.
  - apply isEmpty_true in E. tauto.
  - apply isEmpty_false in E. split.
    + intros H. now apply app_eq_nil in H.
    + tauto.
Qed.

Lemma requiredErr_empty (s : string) :
  (if Str.isEmpty (Str.trim s) then REQUIRED_MSG else ""%string) = ""%string
  <-> filled s.
Proof.
  unfold filled. destruct (Str.isEmpty (Str.trim s)) eqn:E.
  - apply isEmpty_true in E. split; [discriminate | congruence].
  - apply isEmpty_false in E. tauto.
Qed.

Lemma emailErr_empty (s : string) :
  (if Str.isEmpty (Str.trim s) then REQUIRED_MSG
   else if Regex.test_i EMAIL_RE (Str.trim s) then ""%string else EMAIL_MSG)
  = ""%string
  <-> emailShaped (Str.trim s).
Proof.
  rewrite ValidatorsMore.EMAIL_RE_test_i.
  destruct (Str.isEmpty (Str.trim s)) eqn:E.
  - apply isEmpty_true in E. split; [discriminate|].
    intros H. now apply ValidatorsMore.emailShaped_nonempty in H.
  - destruct (Regex.test EMAIL_RE (Str.trim s)) eqn:T.
    + apply ValidatorsMore.EMAIL_RE_shaped in T. tauto.
    + split; [discriminate|]. intros H.
      apply ValidatorsMore.EMAIL_RE_shaped in H. congruence.
Qed.

Lemma phoneErr_empty (s : string) :
  (if Str.isEmpty (Str.trim s) then ""%string
   else if Spec.phoneShaped (Str.trim s) then ""%string else PHONE_MSG)
  = ""%string
  <-> (filled s -> Spec.phoneShaped (Str.trim s) = true).
Proof.
  unfold filled. destruct (Str.isEmpty (Str.trim s)) eqn:E.
  - apply isEmpty_true in E. tauto.
  - apply isEmpty_false in E.
    destruct (Spec.phoneShaped (Str.trim s)); [tauto|].
    split; [discriminate|]. intros H. specialize (H E). discriminate H.
Qed.

Lemma messageErr_empty (s : string) :
  (if Str.isEmpty (Str.trim s) then ""%string
   else if Num.lt (Fin (Z.of_nat (String.length (Str.trim s)))) (Fin 10)
        then "Message must be at least 10 characters."%string
        else ""%string)
  = ""%string
  <-> (filled s -> (10 <= String.length (Str.trim s))%nat).
Proof.
  unfold filled. destruct (Str.isEmpty (Str.trim s)) eqn:E.
  - apply isEmpty_true in E. tauto.
  - apply isEmpty_false in E. cbn [Num.lt].
    destruct (Z.of_nat (String.length (Str.trim s)) <? 10) eqn:L.
    + apply Z.ltb_lt in L. split; [discriminate|]. intros H.
      specialize (H E). lia.
    + apply Z.ltb_ge in L. split; [intros _ _; lia | reflexivity].
Qed.

(** [validateLeadForm] as the list of the six notes. *)
Lemma validateLeadForm_run (f : LeadForm) :
  validateLeadForm f =
  Normal
    (note "message"
       (if Str.isEmpty (Str.trim (lf_message f)) then ""%string
        else if Num.lt (Fin (Z.of_nat (String.length (Str.trim (lf_message f)))))
                  (Fin 10)
             then "Message must be at least 10 characters."%string
             else ""%string)
    (note "phone"
       (if Str.isEmpty (Str.trim (lf_phone f)) then ""%string
        else if Spec.phoneShaped (Str.trim (lf_phone f)) then ""%string
             else PHONE_MSG)
    (note "email"
       (if Str.isEmpty (Str.trim (lf_email f)) then REQUIRED_MSG
        else if Regex.test_i EMAIL_RE (Str.trim (lf_email f)) then ""%string
             else EMAIL_MSG)
    (note "title"
       (if Str.isEmpty (Str.trim (lf_title f)) then REQUIRED_MSG else ""%string)
    (note "dealership"
       (if Str.isEmpty (Str.trim (lf_dealership f)) then REQUIRED_MSG
        else ""%string)
    (note "name"
       (if Str.isEmpty (Str.trim (lf_name f)) then REQUIRED_MSG else ""%string)
       [])))))).
Proof.
  unfold validateLeadForm.
  rewrite !ValidatorsMore.validateRequired_string,
    ValidatorsMore.validateEmail_string,
    ValidationFacts.validatePhoneOptional_string,
    ValidationFacts.callTrim_or_empty.
  cbn [bindC].
  destruct (Str.isEmpty (Str.trim (lf_message f))); [reflexivity|].
  rewrite ValidatorsMore.validateMinLen_string, trim_idempotent.
  reflexivity.
Qed.

Lemma validateLeadForm_spec (f : LeadForm) :
  exists errs,
    validateLeadForm f = Normal errs /\ (errs = [] <-> validLead f).
Proof.
  rewrite validateLeadForm_run. eexists. split; [reflexivity|].
  unfold validLead.
  rewrite !note_nil, !requiredErr_empty, emailErr_empty, phoneErr_empty,
    messageErr_empty.
  tauto.
Qed.

(** X20: [validateLeadForm] does not raise, and it reports no error
    exactly when name, dealership and title hold more than white space, the
    trimmed e-mail reads [local@domain.tld], the phone is blank or
    phone-shaped, and the message is blank or has ten characters or more
    once trimmed. *)
Theorem validateLeadForm_accepts_iff (f : LeadForm) :
  (exists errs, validateLeadForm f = Normal errs)
  /\ (validateLeadForm f = Normal [] <-> validLead f).
Proof.
  destruct (validateLeadForm_spec f) as [errs [Hrun Hiff]]. split.
  - now exists errs.
  - rewrite Hrun. split.
    + intros H. injection H as ->. now apply Hiff.
    + intros H. f_equal. now apply Hiff.
Qed.

Lemma validateResourceForm_spec (f : ResourceForm) :
  exists errs,
    validateResourceForm f = Normal errs /\ (errs = [] <-> validResource f).
Proof.
  unfold validateResourceForm.
  rewrite !ValidatorsMore.validateRequired_string,
    ValidatorsMore.validateEmail_string.
  cbn [bindC]. eexists. split; [reflexivity|].
  unfold validResource.
  rewrite !note_nil, !requiredErr_empty, emailErr_empty.
  tauto.
Qed.

Section Component.

Variable StringToNumber : string -> num.
Variable toISOString : Z -> string.

Local Abbreviation handleLeadSubmit :=
  (App.handleLeadSubmit StringToNumber toISOString).
Local Abbreviation remainingMs :=
  (LeadThrottle.getLeadSubmissionCooldownRemainingMs StringToNumber).

(** The cases of a submit event that is neither blocked nor in flight. *)
Ltac decide_submit Hval Hiff errs :=
  rewrite Hval; cbn [bindC]; destruct errs as [|err errs];
  (eexists; split; [reflexivity|]; do 2 (split; [reflexivity|]);
   split; [intros H; now destruct H|]; intros _;
   split; [discriminate|]; split;
   [ intros _ Hinv;
     first [ exfalso; apply Hinv; now apply Hiff
           | repeat split; discriminate ]
   | intros _ Hv;
     first [ apply Hiff in Hv; discriminate Hv
           | repeat split ] ]).

(** X21: what one submit event does.  It never raises and never
    touches the storage or the fields.  During a cooldown it blocks the form
    and nothing else.  Otherwise, while a submission is in flight it does
    nothing; with an invalid form it records the errors and calls nothing;
    with a valid form it clears the errors, moves to [submitting] and makes
    the one call of [submitLead]. *)
Theorem handleLeadSubmit_decides (now : Z) (p : Page) :
  exists p',
    handleLeadSubmit now p = Normal p'
    /\ localStorage p' = localStorage p
    /\ leadForm p' = leadForm p
    /\ (remainingMs (localStorage p) now VUndefined <> Normal (Fin 0) ->
        p' = setLeadSubmitState blockedState p)
    /\ (remainingMs (localStorage p) now VUndefined = Normal (Fin 0) ->
        (submitStatus (leadSubmitState p) = submitting -> p' = p)
        /\ (submitStatus (leadSubmitState p) <> submitting ->
            ~ validLead (leadForm p) ->
            leadSubmitState p' = leadSubmitState p
            /\ leadErrors p' <> []
            /\ submitLeadCalls p' = submitLeadCalls p)
        /\ (submitStatus (leadSubmitState p) <> submitting ->
            validLead (leadForm p) ->
            submitStatus (leadSubmitState p') = submitting
            /\ leadErrors p' = []
            /\ submitLeadCalls p' =
               submitLeadCalls p ++ [leadPayload toISOString (leadForm p) now])).
Proof.
  unfold App.handleLeadSubmit, App.handleLeadSubmitOf.
  destruct (ThrottleFacts.remainingMs_zero_or_positive
              StringToNumber (localStorage p) now VUndefined) as [r [Hr Hzero]].
  rewrite Hr. cbn [bindC].
  destruct (Num.gt r (Fin 0)) eqn:Hgt.
  - eexists. split; [reflexivity|]. do 3 (split; [reflexivity|]).
    intros H. injection H as ->. discriminate Hgt.
  - pose proof (Hzero eq_refl) as ->.
    destruct (validateLeadForm_spec (leadForm p)) as [errs [Hval Hiff]].
    destruct (submitStatus (leadSubmitState p)) eqn:Hs;
      [decide_submit Hval Hiff errs | decide_submit Hval Hiff errs |
      | decide_submit Hval Hiff errs | decide_submit Hval Hiff errs].
    exists p. split; [reflexivity|]. do 2 (split; [reflexivity|]).
    split; [intros H; now destruct H|]. intros _.
    split; [reflexivity|]. split; intros H; now destruct H.
Qed.

(** A submit event on a valid form, with no cooldown and nothing in
    flight. *)
Lemma handleLeadSubmit_valid (now : Z) (p : Page) :
  remainingMs (localStorage p) now VUndefined = Normal (Fin 0) ->
  submitStatus (leadSubmitState p) <> submitting ->
  validLead (leadForm p) ->
  handleLeadSubmit now p =
  Normal (callSubmitLead (leadPayload toISOString (leadForm p) now)
            (setLeadSubmitState
               {| submitStatus := submitting; submitMessage := "" |}
               (setLeadErrors [] p))).
Proof.
  intros Hcool Hs Hvalid. unfold App.handleLeadSubmit, App.handleLeadSubmitOf.
  rewrite Hcool. cbn [bindC Num.gt Num.lt Z.ltb Z.compare].
  destruct (validateLeadForm_spec (leadForm p)) as [errs [Hval Hiff]].
  apply Hiff in Hvalid. subst errs.
  destruct (submitStatus (leadSubmitState p)); try congruence;
    rewrite Hval; reflexivity.
Qed.

(** What a submit event that started a submission found. *)
Lemma handleLeadSubmit_started (now : Z) (p p1 : Page) :
  submitStatus (leadSubmitState p) <> submitting ->
  handleLeadSubmit now p = Normal p1 ->
  submitStatus (leadSubmitState p1) = submitting ->
  remainingMs (localStorage p) now VUndefined = Normal (Fin 0)
  /\ validLead (leadForm p)
  /\ localStorage p1 = localStorage p
  /\ leadForm p1 = leadForm p
  /\ submitLeadCalls p1 =
     submitLeadCalls p ++ [leadPayload toISOString (leadForm p) now].
Proof.
  unfold App.handleLeadSubmit, App.handleLeadSubmitOf. intros Hs.
  destruct (ThrottleFacts.remainingMs_zero_or_positive
              StringToNumber (localStorage p) now VUndefined) as [r [-> Hr]].
  cbn [bindC].
  destruct (Num.gt r (Fin 0)) eqn:E; [intros H; injection H as <-; discriminate|].
  rewrite (Hr eq_refl).
  destruct (validateLeadForm_spec (leadForm p)) as [errs [Hval Hiff]].
  rewrite Hval.
  destruct (submitStatus (leadSubmitState p)) eqn:Es; try congruence;
    (cbn [bindC]; destruct errs as [|err errs];
     intros H; injection H as <-; cbn; intros H';
     [repeat split; now apply Hiff | congruence]).
Qed.

(** X22: once a submission has succeeded at time [t], a submit event
    before [t + 24 h] finds the form blocked and calls nothing, whatever the
    form holds.  The storage must be usable and [Number] must read the
    stored text back as [t]. *)
Theorem resubmission_is_blocked (rc : Receipt) (t now : Z) (p : Page) :
  denied (localStorage p) = false ->
  StringToNumber (Num.toString (Fin t)) = Fin t ->
  now - t < LeadThrottle.DEFAULT_WINDOW_MS ->
  let p1 := leadSubmitSettled (Normal rc) t p in
  handleLeadSubmit now p1 = Normal (setLeadSubmitState blockedState p1)
  /\ submitLeadCalls (setLeadSubmitState blockedState p1) = submitLeadCalls p.
Proof.
  intros Hd Hparse Hwin. cbv zeta. split; [|reflexivity].
  unfold App.handleLeadSubmit, App.handleLeadSubmitOf.
  cbn [leadSubmitSettled setLeadSubmitState localStorage].
  rewrite (ThrottleMore.remainingMs_finite StringToNumber _ now VUndefined
             LeadThrottle.DEFAULT_WINDOW_MS (Num.toString (Fin t)) t eq_refl
             (ThrottleMore.getItem_markLeadSubmitted _ t Hd)
             (ThrottleMore.toString_Fin_nonempty t) Hparse).
  cbn [bindC Num.gt Num.lt].
  assert ((0 <? Z.max 0 (LeadThrottle.DEFAULT_WINDOW_MS - (now - t))) = true)
    as -> by (apply Z.ltb_lt; lia).
  reflexivity.
Qed.

Lemma remainingMs_denied (st : Storage) (now : Z) (windowMs : value) :
  denied st = true -> remainingMs st now windowMs = Normal (Fin 0).
Proof.
  intros Hd. rewrite ThrottleFacts.remainingMs_cases.
  unfold LocalStorage.getItem. now rewrite Hd.
Qed.

(** X23: the throttle fails open.  In a browser that denies access to
    its storage a succeeded submission leaves no trace, and the next submit
    event on a valid form calls [submitLead] again. *)
Theorem denied_storage_never_blocks (rc : Receipt) (t now : Z) (p : Page) :
  denied (localStorage p) = true ->
  validLead (leadForm p) ->
  exists p2,
    handleLeadSubmit now (leadSubmitSettled (Normal rc) t p) = Normal p2
    /\ submitStatus (leadSubmitState p2) = submitting
    /\ submitLeadCalls p2 =
       submitLeadCalls p ++ [leadPayload toISOString (leadForm p) now].
Proof.
  intros Hd Hvalid. eexists. split.
  - apply handleLeadSubmit_valid.
    + cbn [leadSubmitSettled setLeadSubmitState localStorage].
      apply remainingMs_denied.
      unfold LeadThrottle.markLeadSubmitted, LocalStorage.setItem.
      now rewrite Hd.
    + discriminate.
    + exact Hvalid.
  - split; reflexivity.
Qed.

(** X24: a failed submission can be tried again.  When the call started
    by one submit event has failed, a later submit event on the same form
    makes a second call; the storage was not written in between. *)
Theorem failed_submission_can_be_retried
    (e : error) (now1 t now2 : Z) (p p1 : Page) :
  submitStatus (leadSubmitState p) <> submitting ->
  handleLeadSubmit now1 p = Normal p1 ->
  submitStatus (leadSubmitState p1) = submitting ->
  now1 <= now2 ->
  exists p2,
    handleLeadSubmit now2 (leadSubmitSettled (Throw e) t p1) = Normal p2
    /\ submitStatus (leadSubmitState p2) = submitting
    /\ submitLeadCalls p2 =
       submitLeadCalls p
       ++ [leadPayload toISOString (leadForm p) now1;
           leadPayload toISOString (leadForm p) now2].
Proof.
  intros Hidle Hfirst Hflight Hclock.
  destruct (handleLeadSubmit_started now1 p p1 Hidle Hfirst Hflight)
    as [Hcool [Hvalid [Hst [Hform Hcalls]]]].
  eexists. split.
  - apply handleLeadSubmit_valid;
      cbn [leadSubmitSettled setLeadSubmitState localStorage leadForm
           leadSubmitState submitStatus].
    + rewrite Hst.
      exact (ThrottleFacts.cooldown_stays_over StringToNumber (localStorage p)
               now1 now2 VUndefined LeadThrottle.DEFAULT_WINDOW_MS
               eq_refl Hclock Hcool).
    + discriminate.
    + now rewrite Hform.
  - split; [reflexivity|].
    cbn [callSubmitLead setLeadSubmitState setLeadErrors leadSubmitSettled
         submitLeadCalls leadForm].
    rewrite Hcalls, Hform, <- List.app_assoc. reflexivity.
Qed.

End Component.

(** ** The resource dialog *)

(** The cases of a submit event of the resource form that is not in
    flight. *)
Ltac decide_resource Hval Hiff errs :=
  rewrite Hval; cbn [bindC]; destruct errs as [|err errs];
  (eexists; split; [reflexivity|];
   split; [discriminate|]; split;
   [ intros _ Hinv;
     first [ exfalso; apply Hinv; now apply Hiff
           | repeat split; discriminate ]
   | intros _ Hv;
     first [ apply Hiff in Hv; discriminate Hv
           | repeat split ] ]).

(** X25: what one submit event of the resource form does.  It never
    raises.  While a request is in flight it does nothing, at any time; with
    an invalid form (name or dealership blank, e-mail not
    [local@domain.tld]) it records the errors and calls nothing; with a valid
    form it clears the errors, moves to [submitting] and makes the one call
    of [submitGatedResourceRequest], for the selected resource. *)
Theorem handleResourceSubmit_decides (d : ResourceDialog) :
  exists d',
    handleResourceSubmit d = Normal d'
    /\ (resourceStatus (resourceSubmitState d) = submitting -> d' = d)
    /\ (resourceStatus (resourceSubmitState d) <> submitting ->
        ~ validResource (resourceForm d) ->
        resourceSubmitState d' = resourceSubmitState d
        /\ resourceErrors d' <> []
        /\ resourceCalls d' = resourceCalls d)
    /\ (resourceStatus (resourceSubmitState d) <> submitting ->
        validResource (resourceForm d) ->
        resourceStatus (resourceSubmitState d') = submitting
        /\ resourceErrors d' = []
        /\ resourceCalls d' =
           resourceCalls d
           ++ [resourcePayload (resourceForm d) (selectedResource d)]).
Proof.
  unfold handleResourceSubmit.
  destruct (validateResourceForm_spec (resourceForm d)) as [errs [Hval Hiff]].
  destruct (resourceStatus (resourceSubmitState d)) eqn:Hs;
    [decide_resource Hval Hiff errs | decide_resource Hval Hiff errs |
    | decide_resource Hval Hiff errs | decide_resource Hval Hiff errs].
  exists d. split; [reflexivity|]. split; [reflexivity|].
  split; intros H; now destruct H.
Qed.

Lemma lookup_absent (props : list (string * value)) (k : string) :
  ApiRest.hasProp props k = false -> JS.lookup props k = VUndefined.
Proof.
  induction props as [|[k0 v0] props IH]; [reflexivity|].
  cbn. intros H. apply orb_false_iff in H. destruct H as [H1 H2].
  rewrite H1. now apply IH.
Qed.

(** X26: when a resource request succeeds with a JSON object, the
    dialog shows the object's [message] and offers its [downloadUrl] when
    these are truthy, and shows the stock message and no link otherwise. *)
Theorem resource_success_shows_link
    (props : list (string * value)) (d : ResourceDialog) :
  resourceSubmitState
    (resourceSubmitSettled (Normal (ApiRest.resourceReceipt (VObj props))) d)
  = {| resourceStatus := success;
       resourceMessage :=
         JS.or (JS.lookup props "message") (VStr RESOURCE_READY_MSG);
       downloadUrl := JS.or (JS.lookup props "downloadUrl") (VStr "") |}.
Proof.
  assert (forall k, k <> "ok"%string -> k <> "source"%string ->
            JS.opt_get (ApiRest.resourceReceipt (VObj props)) k
            = JS.lookup props k) as Hget.
  { intros k Hok Hsrc.
    unfold ApiRest.resourceReceipt, ApiRest.spread, JS.or.
    cbn [JS.truthy ApiRest.ownProps JS.opt_get].
    rewrite ApiMore.lookup_spread_from. cbn [existsb].
    destruct (ApiRest.hasProp props k) eqn:E; [reflexivity|].
    rewrite (lookup_absent _ _ E). cbn [JS.lookup].
    apply String.eqb_neq in Hok, Hsrc.
    rewrite (String.eqb_sym "ok" k), Hok, (String.eqb_sym "source" k), Hsrc.
    reflexivity. }
  unfold resourceSubmitSettled. cbn [setResourceSubmitState resourceSubmitState].
  rewrite !Hget by discriminate. reflexivity.
Qed.

(** ** Loading the inventory *)

Section Load.

Variable API_BASE : string.
Variable JSON_parse : string -> option value.
Variable server : list request -> request -> completion response.

(** X27: loading the inventory never ends in the error state.  Whatever
    the backend does the page stops loading with an empty error and either
    the backend's items, without a warning, or the built-in inventory; a load
    that finishes after the page was torn down leaves the state alone. *)
Theorem load_never_fails (s : InventoryState) (log : list request) :
  (exists log' s',
     load API_BASE JSON_parse server false s log = (log', s')
     /\ loading s' = false
     /\ inv_error s' = ""%string
     /\ (inv_source s' = "api"%string /\ inv_warning s' = ""%string
         \/ inv_source s' = "mock"%string
            /\ inv_items s' = Api.getMockInventory))
  /\ snd (load API_BASE JSON_parse server true s log) = loadStarted s.
Proof.
  unfold load, Api.fetchInventory.
  destruct (Api.hasApiBase API_BASE); cbn [negb].
  - destruct (ApiMore.fetchInventoryFrom_total API_BASE JSON_parse server
                Api.INVENTORY_CANDIDATES None log)
      as [n [snap [_ [Hrun Hsnap]]]].
    rewrite Hrun. split; [|reflexivity].
    eexists. eexists. split; [reflexivity|]. cbn.
    split; [reflexivity|]. split; [reflexivity|].
    destruct Hsnap as [[Hsrc Hwarn] | [Hsrc [Hitems _]]].
    + left. rewrite Hwarn. now split.
    + right. now split.
  - split; [|reflexivity].
    eexists. eexists. split; [reflexivity|]. cbn.
    split; [reflexivity|]. split; [reflexivity|]. right. now split.
Qed.

End Load.

Lemma filledForm_valid : validLead Examples.filledForm.
Proof.
  destruct (validateLeadForm_spec Examples.filledForm) as [errs [Hval Hiff]].
  apply Hiff. vm_compute in Hval. now injection Hval as <-.
Qed.

(** A valid form and a form with a name only. *)
Lemma validateLeadForm_accepts_iff_witness :
  validLead Examples.filledForm /\ ~ validLead MoreExamples.nameOnlyForm.
Proof.
  split.
  - apply (proj2 (validateLeadForm_accepts_iff Examples.filledForm)).
    reflexivity.
  - intros H.
    apply (proj2 (validateLeadForm_accepts_iff MoreExamples.nameOnlyForm)) in H.
    discriminate H.
Defined.

(** A first-time visitor with a valid form. *)
Lemma handleLeadSubmit_decides_witness :
  exists p',
    App.handleLeadSubmit Examples.decimalToNumber Examples.isoOpaque
      1000 Examples.freshPage = Normal p'
    /\ submitStatus (leadSubmitState p') = submitting
    /\ List.length (submitLeadCalls p') = 1%nat.
Proof.
  destruct (handleLeadSubmit_decides Examples.decimalToNumber Examples.isoOpaque
              1000 Examples.freshPage)
    as [p' [Hrun [_ [_ [_ Hcases]]]]].
  destruct (Hcases eq_refl) as [_ [_ Hvalid]].
  destruct Hvalid as [Hs [_ Hcalls]];
    [discriminate | apply filledForm_valid |].
  exists p'. split; [exact Hrun|]. split; [exact Hs|].
  rewrite Hcalls. reflexivity.
Defined.

(** The visitor of the example, served at time 2000, tries again an
    hour later. *)
Lemma resubmission_is_blocked_witness :
  let p1 := leadSubmitSettled
              (Normal {| ok := true; receipt_source := "api"; data := None |})
              2000 Examples.freshPage in
  App.handleLeadSubmit Examples.decimalToNumber Examples.isoOpaque
    3602000 p1
  = Normal (setLeadSubmitState blockedState p1).
Proof.
  apply (resubmission_is_blocked Examples.decimalToNumber Examples.isoOpaque
           {| ok := true; receipt_source := "api"; data := None |}
           2000 3602000 Examples.freshPage);
    [reflexivity | reflexivity | unfold LeadThrottle.DEFAULT_WINDOW_MS; lia].
Defined.

(** The same visitor in a browser that denies the storage. *)
Lemma denied_storage_never_blocks_witness :
  let p := {| leadSubmitState := leadSubmitState Examples.freshPage;
              leadErrors := []; leadForm := Examples.filledForm;
              localStorage := Examples.deniedStorage;
              submitLeadCalls := [] |} in
  exists p2,
    App.handleLeadSubmit Examples.decimalToNumber Examples.isoOpaque 3000
      (leadSubmitSettled
         (Normal {| ok := true; receipt_source := "api"; data := None |})
         2000 p)
    = Normal p2
    /\ submitStatus (leadSubmitState p2) = submitting.
Proof.
  cbv zeta.
  destruct (denied_storage_never_blocks Examples.decimalToNumber
              Examples.isoOpaque
              {| ok := true; receipt_source := "api"; data := None |}
              2000 3000
              {| leadSubmitState := leadSubmitState Examples.freshPage;
                 leadErrors := []; leadForm := Examples.filledForm;
                 localStorage := Examples.deniedStorage;
                 submitLeadCalls := [] |}
              eq_refl filledForm_valid)
    as [p2 [Hrun [Hs _]]].
  exists p2. split; [exact Hrun | exact Hs].
Defined.

(** The first call fails at time 1500; the visitor submits again at
    time 2000. *)
Lemma failed_submission_can_be_retried_witness :
  exists p1 p2,
    App.handleLeadSubmit Examples.decimalToNumber Examples.isoOpaque
      1000 Examples.freshPage = Normal p1
    /\ App.handleLeadSubmit Examples.decimalToNumber Examples.isoOpaque 2000
         (leadSubmitSettled (Throw (newError "Failed to fetch")) 1500 p1)
       = Normal p2
    /\ List.length (submitLeadCalls p2) = 2%nat.
Proof.
  eexists. 
  destruct (failed_submission_can_be_retried Examples.decimalToNumber
              Examples.isoOpaque (newError "Failed to fetch") 1000 1500 2000
              Examples.freshPage _ ltac:(discriminate) eq_refl eq_refl
              ltac:(lia))
    as [p2 [Hrun [_ Hcalls]]].
  exists p2. split; [reflexivity|]. split; [exact Hrun|].
  rewrite Hcalls. reflexivity.
Defined.

(** The resource form of the example, submitted once. *)
Lemma handleResourceSubmit_decides_witness :
  exists d',
    handleResourceSubmit MoreExamples.freshDialog = Normal d'
    /\ resourceCalls d' =
       [resourcePayload MoreExamples.validResourceForm MoreExamples.buyersGuide].
Proof.
  destruct (handleResourceSubmit_decides MoreExamples.freshDialog)
    as [d' [Hrun [_ [_ Hvalid]]]].
  destruct Hvalid as [_ [_ Hcalls]]; [discriminate | |].
  - destruct (validateResourceForm_spec MoreExamples.validResourceForm)
      as [errs [Hval Hiff]].
    apply Hiff. vm_compute in Hval. now injection Hval as <-.
  - exists d'. split; [exact Hrun | exact Hcalls].
Defined.

End FormsMore.

(* ================================================================== *)
(** * Joining the base URL and a path *)
(* ================================================================== *)

Module UrlFacts.

Import Str StrFacts StrMore Api.

Lemma stripLeadingSlashes_idempotent (s : string) :
  stripLeadingSlashes (stripLeadingSlashes s) = stripLeadingSlashes s.
Proof.
  induction s as [|c s IH]; [reflexivity|].
  each_char c; try reflexivity. exact IH.
Qed.

Lemma stripTrailingSlashes_idempotent (s : string) :
  stripTrailingSlashes (stripTrailingSlashes s) = stripTrailingSlashes s.
Proof.
  induction s as [|c s IH]; cbn; [reflexivity|].
  destruct (stripTrailingSlashes s) as [|d r] eqn:E.
  - destruct (Ascii.eqb c "/") eqn:W; cbn; [reflexivity | now rewrite W].
  - change (stripTrailingSlashes (String c (String d r))) with
      (match stripTrailingSlashes (String d r) with
       | EmptyString => if Ascii.eqb c "/" then EmptyString else String c EmptyString
       | r' => String c r'
       end).
    now rewrite IH.
Qed.

Lemma stripTrailingSlashes_slashes (n : nat) :
  stripTrailingSlashes (Shapes.slashes n) = "".
Proof.
  induction n as [|n IH]; [reflexivity|].
  cbn [Shapes.slashes stripTrailingSlashes]. now rewrite IH.
Qed.

(** The slashes after a base that does not end in one are removed, and
    nothing else. *)
Lemma stripTrailingSlashes_base (b : string) (m : nat) :
  Shapes.endsWithSlash b = false ->
  stripTrailingSlashes (b ++ Shapes.slashes m) = b.
Proof.
  induction b as [|c b IH]; intros Hb.
  - apply stripTrailingSlashes_slashes.
  - cbn [append stripTrailingSlashes]. destruct b as [|d b'].
    + cbn [append]. rewrite stripTrailingSlashes_slashes.
      cbn [Shapes.endsWithSlash] in Hb. now rewrite Hb.
    + rewrite IH; [reflexivity | exact Hb].
Qed.

(** The slashes before a path that does not begin with one are removed,
    and nothing else. *)
Lemma stripLeadingSlashes_path (n : nat) (p : string) :
  startsWith p "/" = false ->
  stripLeadingSlashes (Shapes.slashes n ++ p) = p.
Proof.
  intros Hp. induction n as [|n IH]; [|exact IH].
  destruct p as [|c p]; [reflexivity|].
  revert Hp. each_char c; intros Hp; try reflexivity.
  cbn in Hp. rewrite startsWith_empty in Hp. discriminate Hp.
Qed.

(** X29: [joinUrl] puts exactly one slash between the base and the
    path: a base [b] that does not end in a slash, followed by any number of
    slashes, joined with any number of slashes followed by a path [p] that
    does not begin with one, gives [b/p]. *)
Theorem joinUrl_one_slash (b p : string) (m n : nat) :
  Shapes.endsWithSlash b = false ->
  startsWith p "/" = false ->
  joinUrl (b ++ Shapes.slashes m) (Shapes.slashes n ++ p) = b ++ "/" ++ p.
Proof.
  intros Hb Hp. unfold joinUrl.
  rewrite (stripTrailingSlashes_base b m Hb), (stripLeadingSlashes_path n p Hp).
  now destruct b.
Qed.

(** Every base and every path is of that form. *)
Lemma slashes_trailing (base : string) :
  exists b m, base = b ++ Shapes.slashes m /\ Shapes.endsWithSlash b = false.
Proof.
  induction base as [|c base [b [m [E Hb]]]].
  - exists "", 0%nat. split; reflexivity.
  - destruct b as [|d b'].
    + destruct (Ascii.eqb c "/") eqn:Hc.
      * apply Ascii.eqb_eq in Hc. subst c.
        exists "", (S m). cbn in E |- *. now rewrite E.
      * exists (String c ""), m. cbn in E |- *. now rewrite E, Hc.
    + exists (String c (String d b')), m. split; [now rewrite E | exact Hb].
Qed.

Lemma slashes_leading (path : string) :
  exists n p, path = Shapes.slashes n ++ p /\ startsWith p "/" = false.
Proof.
  induction path as [|c path [n [p [E Hp]]]].
  - exists 0%nat, "". split; reflexivity.
  - destruct (Ascii.eqb "/" c) eqn:Hc.
    + apply Ascii.eqb_eq in Hc. subst c.
      exists (S n), p. cbn. now rewrite <- E.
    + exists 0%nat, (String c path). split; [reflexivity|].
      cbn [startsWith]. now rewrite Hc.
Qed.

Example joinUrl_examples :
  joinUrl "https://dealer.example///" "//api/inventory"
  = "https://dealer.example/api/inventory"
  /\ joinUrl "" "cars" = "/cars"
  /\ joinUrl "/" "/" = "/".
Proof. repeat split. Qed.

(** A base with three slashes too many and a path with two. *)
Lemma joinUrl_one_slash_witness :
  joinUrl "https://dealer.example///" "//api/inventory"
  = "https://dealer.example/api/inventory".
Proof.
  apply (joinUrl_one_slash "https://dealer.example" "api/inventory" 3 2);
    reflexivity.
Defined.

End UrlFacts.
